(** * plot_top_camera_params.py: a shallow embedding and its properties

    The script walks a directory, reads four EXIF tags from every NEF/RAW
    file, tabulates them in a data frame and plots, per tag, the rows that
    carry one of the ten most frequent values.

    The embedding follows the script function by function and keeps its
    names.  Library objects the script only passes around are modelled by
    what the script observes of them:
    - a Python [dict] is a [gmap]; the claims below never observe the
      iteration order of a dict, only its lookups;
    - an [exifread] tag object is a record holding the text [str] returns;
    - a pandas [Series] is the list of its (label, cell) pairs, a missing
      cell (NaN) being [None]; a [DataFrame] is a header and labelled rows;
    - a Python float is an IEEE 754 binary64 number ([spec_float] with
      precision 53 and maximal exponent 1024);
    - exceptions are values of [exn], carried in the left summand;
    - [open], [exifread.process_file], [print] and [print_help] leave an
      event in a log, and [open] adds a descriptor to the table of open
      files; only an explicit close would remove it. *)

From Stdlib Require Import Ascii String PrimFloat FloatOps SpecFloat.
From stdpp Require Import gmap strings list sorting.

Set Warnings "-register-all,-inexact-float".
Open Scope string_scope.
Open Scope nat_scope.
Open Scope list_scope.

(** ** Exceptions and results *)

Inductive exn :=
  | KeyError (key : string)
  | IndexError
  | TypeError
  | SyntaxError
  | ZeroDivisionError
  | DecodeError
  | FileAccessError (path : string)
  | SystemExit (code : Z).

Definition result (A : Type) : Type := exn + A.

Definition ok {A} (x : A) : result A := inr x.
Definition raise {A} (e : exn) : result A := inl e.

Definition rbind {A B} (r : result A) (k : A → result B) : result B :=
  match r with
  | inl e => inl e
  | inr x => k x
  end.

(** [for x in l: acc = body(acc, x)], the first exception ends the loop. *)
Fixpoint rfold {A B} (body : B → A → result B) (acc : B) (l : list A)
    : result B :=
  match l with
  | [] => ok acc
  | x :: l' => rbind (body acc x) (λ acc', rfold body acc' l')
  end.

(** [[f(x) for x in l]] *)
Definition rmap {A B} (f : A → result B) (l : list A) : result (list B) :=
  rfold (λ acc x, rbind (f x) (λ y, ok (acc ++ [y]))) [] l.

(** ** Python values *)

Definition pyfloat : Type := spec_float.

Definition float_of_Z (n : Z) : pyfloat := binary_normalize 53 1024 n 0 false.
Definition float_div (x y : pyfloat) : pyfloat := SFdiv 53 1024 x y.
Definition float_leb (x y : pyfloat) : bool := SFleb x y.

Inductive pyval :=
  | PStr (s : string)
  | PInt (n : Z)
  | PFloat (x : pyfloat).

Global Instance spec_float_eq_dec : EqDecision spec_float.
Proof. solve_decision. Defined.

Global Instance pyval_eq_dec : EqDecision pyval.
Proof. solve_decision. Defined.

Global Instance exn_eq_dec : EqDecision exn.
Proof. solve_decision. Defined.

(** ** Strings: [str.lower], [str.rfind], [os.path.splitext] *)

Definition lower_ascii (a : ascii) : ascii :=
  let n := nat_of_ascii a in
  if (65 <=? n)%nat && (n <=? 90)%nat then ascii_of_nat (n + 32) else a.

(** [s.lower()]; letters outside ASCII are left alone, which cannot change
    whether the result is [".nef"] or [".raw"]. *)
Fixpoint lower (s : string) : string :=
  match s with
  | EmptyString => EmptyString
  | String a s' => String (lower_ascii a) (lower s')
  end.

Fixpoint rfind_from (c : ascii) (p : string) (i last : Z) : Z :=
  match p with
  | EmptyString => last
  | String a p' => rfind_from c p' (i + 1) (if Ascii.eqb a c then i else last)
  end.

(** [p.rfind(c)]: the highest index of [c] in [p], or -1. *)
Definition rfind (c : ascii) (p : string) : Z := rfind_from c p 0 (-1).

Fixpoint str_take (n : nat) (s : string) : string :=
  match n, s with
  | S n', String a s' => String a (str_take n' s')
  | _, _ => EmptyString
  end.

Fixpoint str_drop (n : nat) (s : string) : string :=
  match n, s with
  | S n', String _ s' => str_drop n' s'
  | _, _ => s
  end.

(** [p[i:j]] for [0 <= i]. *)
Definition slice (p : string) (i j : Z) : string :=
  str_take (Z.to_nat (j - i)) (str_drop (Z.to_nat i) p).

Fixpoint all_dots (s : string) : bool :=
  match s with
  | EmptyString => true
  | String a s' => Ascii.eqb a "." && all_dots s'
  end.

(** [os.path.splitext] of [posixpath]: the extension starts at the last dot
    of the last path component, leading dots of that component apart. *)
Definition splitext (p : string) : string * string :=
  let sepIndex := rfind "/" p in
  let dotIndex := rfind "." p in
  if (sepIndex <? dotIndex)%Z && negb (all_dots (slice p (sepIndex + 1) dotIndex))
  then (str_take (Z.to_nat dotIndex) p, str_drop (Z.to_nat dotIndex) p)
  else (p, "").

Definition os_sep : string := "/".

(** ** [eval] on the expressions EXIF ratios print as

    [eval] is modelled on decimal integer literals and on the quotient of
    two of them.  Any other text is reported as a [SyntaxError]; nothing
    below depends on what Python makes of such text. *)

Definition is_digit (a : ascii) : bool :=
  let n := nat_of_ascii a in (48 <=? n)%nat && (n <=? 57)%nat.

Fixpoint digits_value (s : string) (acc : Z) : option Z :=
  match s with
  | EmptyString => Some acc
  | String a s' =>
      if is_digit a
      then digits_value s' (10 * acc + Z.of_nat (nat_of_ascii a - 48))
      else None
  end.

Fixpoint all_zeros (s : string) : bool :=
  match s with
  | EmptyString => true
  | String a s' => Ascii.eqb a "0" && all_zeros s'
  end.

(** A decimal integer literal: digits, without a leading zero unless all
    digits are zero. *)
Definition int_literal (s : string) : option Z :=
  match s with
  | EmptyString => None
  | String a _ =>
      if Ascii.eqb a "0" && negb (all_zeros s) then None else digits_value s 0
  end.

Fixpoint split_slash (s : string) : option (string * string) :=
  match s with
  | EmptyString => None
  | String a s' =>
      if Ascii.eqb a "/" then Some (EmptyString, s')
      else match split_slash s' with
           | Some (l, r) => Some (String a l, r)
           | None => None
           end
  end.

(** [a / b] on two ints: true division.  The operands are made floats
    and divided; for operands below 2^53 in size, as the 32-bit numerators
    and denominators of EXIF are, both are floats exactly and this is the
    correctly rounded quotient Python gives.  Larger operands are outside
    what is modelled. *)
Definition true_div (a b : Z) : result pyval :=
  if (b =? 0)%Z then raise ZeroDivisionError
  else ok (PFloat (float_div (float_of_Z a) (float_of_Z b))).

(** [eval] on the texts an exposure time prints as: a decimal literal, or
    the quotient of two.  Any other text is a [SyntaxError] here; Python's
    [eval] accepts every expression, so only what is said of these two
    forms carries over to the script. *)
Definition eval (s : string) : result pyval :=
  match split_slash s with
  | None =>
      match int_literal s with
      | Some n => ok (PInt n)
      | None => raise SyntaxError
      end
  | Some (l, r) =>
      match int_literal l, int_literal r with
      | Some a, Some b => true_div a b
      | _, _ => raise SyntaxError
      end
  end.

(** ** The log of effects *)

Inductive event :=
  | EvOpen (path : string) (fd : nat)
  | EvClose (fd : nat)
  | EvProcess (fd : nat)
  | EvPrint (text : string) (items : list string)
  | EvPrintHelp.

Global Instance event_eq_dec : EqDecision event.
Proof. solve_decision. Defined.

Record world := World { next_fd : nat; log : list event }.

Definition emit (e : event) (w : world) : world :=
  World (next_fd w) (log w ++ [e]).

(** The descriptors a log leaves open: opened and not closed since. *)
Fixpoint live_from (acc : list nat) (l : list event) : list nat :=
  match l with
  | [] => acc
  | EvOpen _ fd :: l' => live_from (acc ++ [fd]) l'
  | EvClose fd :: l' => live_from (filter (λ d, d ≠ fd) acc) l'
  | _ :: l' => live_from acc l'
  end.

Definition live (l : list event) : list nat := live_from [] l.

Definition is_close (e : event) : bool :=
  match e with EvClose _ => true | _ => false end.

(** Computations with effects: a result and the world after it.  The world
    is kept when an exception is raised. *)
Definition io (A : Type) : Type := world → result A * world.

Definition io_ret {A} (x : A) : io A := λ w, (ok x, w).
Definition io_raise {A} (e : exn) : io A := λ w, (raise e, w).
Definition io_lift {A} (r : result A) : io A := λ w, (r, w).

Definition io_bind {A B} (m : io A) (k : A → io B) : io B :=
  λ w, match m w with
       | (inl e, w') => (inl e, w')
       | (inr x, w') => k x w'
       end.

Notation "'let!' x ':=' m 'in' k" := (io_bind m (λ x, k))
  (at level 10, x name, m at level 100, k at level 200, only parsing).

(** [for x in l: acc = body(acc, x)] *)
Fixpoint io_fold {A B} (body : B → A → io B) (acc : B) (l : list A) : io B :=
  match l with
  | [] => io_ret acc
  | x :: l' => let! acc' := body acc x in io_fold body acc' l'
  end.

(** ** Files and directories *)

(** What [exifread] reports of a tag: [str(tag)] is its printable text. *)
Record IfdTag := { printable : string }.

Definition str (v : IfdTag) : string := printable v.

(** A file on disk, by what opening and decoding it yields. *)
Inductive fdata :=
  | Unreadable
  | Corrupt
  | Image (tags : gmap string IfdTag).

Inductive tree :=
  | Dir (files : list (string * fdata)) (subdirs : list (string * tree)).

Record handle := Handle { h_fd : nat; h_data : fdata }.

(** [open(filepath, 'rb')] *)
Definition py_open (filepath : string) (data : fdata) : io handle :=
  λ w, match data with
       | Unreadable => (raise (FileAccessError filepath), w)
       | _ =>
           let fd := next_fd w in
           (ok (Handle fd data),
            World (S fd) (log w ++ [EvOpen filepath fd]))
       end.

(** [exifread.process_file(f)] *)
Definition process_file (f : handle) : io (gmap string IfdTag) :=
  λ w, let w' := emit (EvProcess (h_fd f)) w in
       match h_data f with
       | Image tags => (ok tags, w')
       | _ => (raise DecodeError, w')
       end.

Definition ends_with_slash (s : string) : bool :=
  bool_decide (rfind "/" s = Z.of_nat (String.length s) - 1)%Z
  && negb (bool_decide (s = "")).

(** [os.path.join(top, name)] for a directory entry [name]. *)
Definition path_join (top name : string) : string :=
  if bool_decide (top = "") || ends_with_slash top
  then top +:+ name
  else top +:+ "/" +:+ name.

(** [os.walk(top)], top down: the directory itself, then its
    subdirectories in turn.  Each file name comes with the file's state on
    disk, which is what [open] of its path finds. *)
Fixpoint walk (top : string) (t : tree)
    : list (string * list string * list (string * fdata)) :=
  match t with
  | Dir files subdirs =>
      (top, subdirs.*1, files)
        :: flat_map (λ e, walk (path_join top e.1) e.2) subdirs
  end.

(** A directory that does not exist yields nothing. *)
Definition os_walk (disk : string → option tree) (top : string)
    : list (string * list string * list (string * fdata)) :=
  match disk top with
  | Some t => walk top t
  | None => []
  end.

(** ** The script *)

Definition exif_subset : list string :=
  ["EXIF ExposureTime"; "EXIF ISOSpeedRatings"; "EXIF FocalLength";
   "EXIF FNumber"].

Definition filter_dict {K} `{Countable K} {V}
    (dict_obj : gmap K V) (callback : K * V → bool) : gmap K V :=
  map_fold
    (λ key value filtered_dict,
       if callback (key, value)
       then <[key:=value]> filtered_dict
       else filtered_dict)
    ∅ dict_obj.

(** The value the comprehension of [collect_tags] stores under [k]. *)
Definition tag_value (k : string) (v : IfdTag) : result pyval :=
  if bool_decide (k = "EXIF FNumber") then eval (str v) else ok (PStr (str v)).

(** [dict((k, f(k, v)) for k, v in d.items())] *)
Definition dict_comprehension {V W} (f : string → V → result W)
    (d : gmap string V) : result (gmap string W) :=
  rfold (λ acc kv, rbind (f kv.1 kv.2) (λ x, ok (<[kv.1:=x]> acc)))
        ∅ (map_to_list d).

Definition collect_tags (f : handle) (tags_subset : list string)
    : io (gmap string pyval) :=
  let! raw_tags := process_file f in
  let selected_tags :=
    filter_dict raw_tags (λ elem, bool_decide (elem.1 ∈ exif_subset)) in
  let! tags := io_lift (dict_comprehension tag_value selected_tags) in
  io_ret tags.

Definition harvest_exifs_from_dir (disk : string → option tree) (dir : string)
    : io (list (gmap string pyval)) :=
  io_fold
    (λ tags entry,
       let '(subdir, dirs, files) := entry in
       io_fold
         (λ tags file,
            let '(filename, data) := file in
            let filepath := subdir +:+ os_sep +:+ filename in
            let ext := lower (splitext filepath).2 in
            if bool_decide (ext ∉ [".nef"; ".raw"]) then io_ret tags
            else
              let! f := py_open filepath data in
              let! record := collect_tags f exif_subset in
              io_ret (tags ++ [record]))
         tags files)
    [] (os_walk disk dir).

(** ** pandas: series and data frames *)

(** A series: its entries in order, each a row label and a cell. *)
Abbreviation Series V := (list (nat * option V)).

Record DataFrame (V : Type) := Frame {
  columns : list string;
  rows : list (nat * list (option V))
}.
Arguments Frame {V} _ _.
Arguments columns {V} _.
Arguments rows {V} _.

(** [l[mask]]: the entries whose flag is set. *)
Fixpoint mask_select {A} (l : list A) (mask : list bool) : list A :=
  match l, mask with
  | x :: l', b :: mask' =>
      if b then x :: mask_select l' mask' else mask_select l' mask'
  | _, _ => []
  end.

Section Pandas.
Context {V : Type} `{EqDecision V}.

(** [data[x]] for a column name [x] *)
Definition getitem (data : DataFrame V) (x : string) : result (Series V) :=
  match list_find (λ c, c = x) (columns data) with
  | Some (j, _) => ok ((λ r, (r.1, mjoin (r.2 !! j))) <$> rows data)
  | None => raise (KeyError x)
  end.

(** [data[mask]] for a boolean series over the index of [data] *)
Definition getitem_mask (data : DataFrame V) (mask : list (nat * bool))
    : DataFrame V :=
  Frame (columns data) (mask_select (rows data) mask.*2).

(** The cells of a series that are not missing. *)
Definition dropna (s : Series V) : list V := omap snd s.

(** One more occurrence of [v] in a tally kept in order of first
    appearance. *)
Fixpoint count_add (v : V) (acc : list (V * nat)) : list (V * nat) :=
  match acc with
  | [] => [(v, 1)]
  | (w, n) :: acc' =>
      if decide (v = w) then (w, S n) :: acc' else (w, n) :: count_add v acc'
  end.

Definition tally (l : list V) : list (V * nat) :=
  foldl (λ acc v, count_add v acc) [] l.

(** Larger counts first. *)
Definition by_count : relation (V * nat) := λ a b, (b.2 ≤ a.2)%nat.

Global Instance by_count_dec a b : Decision (by_count a b).
Proof. unfold by_count. apply _. Defined.

(** [s.value_counts()]: every value that occurs with how often it does,
    missing cells left out, most frequent first.  pandas leaves the order
    among equal counts to its sort; here it is the order [merge_sort]
    gives, and no property below depends on it.  The cells are values
    with a decidable equality, as the texts and numbers of the script's
    frame are; a cell pandas cannot hash, on which it raises [TypeError],
    is not modelled, so that nothing below says when the count succeeds
    on other frames. *)
Definition value_counts (s : Series V) : list (V * nat) :=
  merge_sort by_count (tally (dropna s)).

(** [c.nlargest(n)] *)
Definition nlargest (n : nat) (c : list (V * nat)) : list (V * nat) :=
  take n (merge_sort by_count c).

(** [c.index] *)
Definition index_of {A B} (c : list (A * B)) : list A := c.*1.

(** [s.isin(vals)]; a missing cell is in no list of values. *)
Definition isin (s : Series V) (vals : list V) : list (nat * bool) :=
  (λ e, (e.1, match e.2 with
              | Some v => bool_decide (v ∈ vals)
              | None => false
              end)) <$> s.

Definition sel_top_vals (data : DataFrame V) (x : string)
    : result (Series V) :=
  rbind (getitem data x) (λ values,
  let top_values_cnt_idx := index_of (nlargest 10 (value_counts values)) in
  let top_values := getitem (getitem_mask data (isin values top_values_cnt_idx)) x in
  top_values).

(** [s.iloc[positions]] *)
Definition iloc {A} (s : list A) (positions : list nat) : result (list A) :=
  rmap (λ i, match s !! i with
             | Some e => ok e
             | None => raise IndexError
             end) positions.
End Pandas.

(** What a number is held as in a column of floats: an int as the float
    of the same value. *)
Definition cell_of (v : pyval) : pyval :=
  match v with
  | PInt n => PFloat (float_of_Z n)
  | _ => v
  end.

(** Whether pandas makes the column [c] of the records a column of
    floats: none of its cells is text, and one of them is a float or is
    missing.  A column of ints alone, none missing, stays a column of
    ints, and a column with text in it is left as it is.  (Ints are taken
    to fit 64 bits, as those of EXIF do.) *)
Definition float_column (records : list (gmap string pyval)) (c : string)
    : bool :=
  forallb (λ r : gmap string pyval,
             match r !! c with
             | Some (PStr _) => false
             | _ => true
             end) records
  && existsb (λ r : gmap string pyval,
                match r !! c with
                | None | Some (PFloat _) => true
                | _ => false
                end) records.

(** [pd.DataFrame(records)]: one row per record, labelled 0, 1, ...; one
    column per key that occurs; a key absent from a record is a missing
    cell; the ints of a column of floats are held as floats. *)
Definition DataFrame_of_records (records : list (gmap string pyval))
    : DataFrame pyval :=
  let cols := remove_dups (flat_map (λ r, (map_to_list r).*1) records) in
  Frame cols
    (imap (λ i (r : gmap string pyval),
             (i, (λ c, (if float_column records c then cell_of else id)
                         <$> (r !! c)) <$> cols))
          records).

(** [df.rename(columns=names)] *)
Definition rename {V} (df : DataFrame V) (names : gmap string string)
    : DataFrame V :=
  Frame ((λ c, default c (names !! c)) <$> columns df) (rows df).

Definition column_names : gmap string string :=
  list_to_map [("EXIF ExposureTime", "Shutter Speed");
               ("EXIF ISOSpeedRatings", "ISO");
               ("EXIF FocalLength", "Focal length");
               ("EXIF FNumber", "F number")].

(** [lambda x: eval(x)] on a cell; the result as the float the series
    holds.  [eval] accepts text only. *)
Definition eval_cell (c : option pyval) : result pyfloat :=
  match c with
  | Some (PStr s) =>
      rbind (eval s) (λ v,
        match v with
        | PInt n => ok (float_of_Z n)
        | PFloat x => ok x
        | PStr _ => raise TypeError
        end)
  | _ => raise TypeError
  end.

(** [s.apply(f)] *)
Definition series_apply {A B} (f : option A → result B) (s : Series A)
    : result (list (nat * B)) :=
  rmap (λ e, rbind (f e.2) (λ y, ok (e.1, y))) s.

Definition by_value : relation (nat * pyfloat) :=
  λ a b, float_leb a.2 b.2 = true.

Global Instance by_value_dec a b : Decision (by_value a b).
Proof. unfold by_value. apply _. Defined.

(** [s.sort_values()], ascending.  Among equal values, and around a NaN,
    the order is the one [merge_sort] gives, which need not be that of
    pandas; what is proved of the order assumes no NaN and speaks of the
    values only. *)
Definition sort_values (s : list (nat * pyfloat)) : list (nat * pyfloat) :=
  merge_sort by_value s.

(** Line 135 of the script. *)
Definition sorted_shutter_speeds (exifs_df : DataFrame pyval)
    : result (Series pyval) :=
  rbind (sel_top_vals exifs_df "Shutter Speed") (λ top,
  rbind (sel_top_vals exifs_df "Shutter Speed") (λ top',
  rbind (series_apply eval_cell top') (λ speeds,
  iloc top (index_of (sort_values speeds))))).

(** ** Command line *)

Record Namespace := { dir : string }.

Section Main.
(** [arg_parser.parse_known_args()] of [argparse], for a parser with the
    one positional argument [dir]: the namespace and the arguments it
    does not know, or the exit it takes. *)
Variable parse_known_args : list string → result (Namespace * list string).
Variable disk : string → option tree.

Definition parse_arguments (argv : list string) : io Namespace :=
  let! parsed := io_lift (parse_known_args argv) in
  let '(args, unknown_args) := parsed in
  let! _ :=
    (if bool_decide (unknown_args ≠ [])
     then (λ w, (ok (), emit EvPrintHelp
                          (emit (EvPrint "Unknown argument(s):" unknown_args) w)))
     else io_ret ()) in
  io_ret args.

(** What [main] hands to the four [countplot] calls. *)
Definition figure : Type :=
  Series pyval * Series pyval * Series pyval * Series pyval.

(** [main] after [parse_arguments]. *)
Definition main_with (args : Namespace) : io figure :=
  let! records := harvest_exifs_from_dir disk (dir args) in
  let exifs_df := rename (DataFrame_of_records records) column_names in
  let! shutter := io_lift (sorted_shutter_speeds exifs_df) in
  let! iso := io_lift (sel_top_vals exifs_df "ISO") in
  let! focal := io_lift (sel_top_vals exifs_df "Focal length") in
  let! fnumber := io_lift (sel_top_vals exifs_df "F number") in
  io_ret (shutter, iso, focal, fnumber).

Definition main (argv : list string) : io figure :=
  let! args := parse_arguments argv in
  main_with args.
End Main.

(** ** [filter_dict] on an object store

    The same loop with the dictionaries as objects: a store maps the
    address of a dict to its contents, [dict()] allocates, and
    [filtered_dict[key] = value] updates the object in place. *)

Module Store.
Section Store.
Context {K : Type} `{Countable K} {V : Type}.

(** [dict()] *)
Definition dict_new (σ : gmap nat (gmap K V)) : nat * gmap nat (gmap K V) :=
  let a := fresh (dom σ) in (a, <[a:=∅]> σ).

(** [d[key] = value] for the dict at address [a] *)
Definition setitem (a : nat) (key : K) (value : V)
    (σ : gmap nat (gmap K V)) : gmap nat (gmap K V) :=
  alter (insert key value) a σ.

(** [d.items()] for the dict at address [a] *)
Definition items (a : nat) (σ : gmap nat (gmap K V)) : list (K * V) :=
  map_to_list (default ∅ (σ !! a)).

Definition filter_dict (dict_obj : nat) (callback : K * V → bool)
    (σ : gmap nat (gmap K V)) : nat * gmap nat (gmap K V) :=
  let '(filtered_dict, σ1) := dict_new σ in
  (filtered_dict,
   foldl (λ σ' item,
            if callback item
            then setitem filtered_dict item.1 item.2 σ'
            else σ')
         σ1 (items dict_obj σ1)).
End Store.
End Store.

(** ** Notions the properties are stated with *)

(** The files [os.walk] reaches, each with the path the harvester builds,
    in the order of the walk. *)
Definition walk_files (disk : string → option tree) (dir : string)
    : list (string * fdata) :=
  flat_map (λ entry, (λ file, (entry.1.1 +:+ os_sep +:+ file.1, file.2))
                       <$> entry.2)
           (os_walk disk dir).

(** The extension test of the harvester. *)
Definition raw_ext (filepath : string) : Prop :=
  lower (splitext filepath).2 ∈ [".nef"; ".raw"].

(** The record of one file: what opening it and collecting its tags
    returns. *)
Definition record_of (file : string * fdata) : result (gmap string pyval) :=
  match file.2 with
  | Unreadable => raise (FileAccessError file.1)
  | Corrupt => raise DecodeError
  | Image raw =>
      dict_comprehension tag_value
        (filter_dict raw (λ elem, bool_decide (elem.1 ∈ exif_subset)))
  end.

(** The descriptors a stretch of log opens. *)
Definition opened (l : list event) : list nat :=
  omap (λ e, match e with EvOpen _ fd => Some fd | _ => None end) l.

(** A log keeps file handles scoped when never more than one is open and
    none is left open at the end. *)
Definition one_at_a_time (l : list event) : Prop :=
  ∀ k, length (live (take k l)) ≤ 1.

Definition scoped (l : list event) : Prop :=
  one_at_a_time l ∧ live l = [].

(** The values of a series, each once. *)
Definition distinct_values {V} `{EqDecision V} (s : Series V) : list V :=
  remove_dups (dropna s).

(** How many cells of a series hold [v]. *)
Definition occurrences {V} `{EqDecision V} (v : V) (s : Series V) : nat :=
  length (filter (λ e, e.2 = Some v) s).

(** The entries of a series whose cell is not missing. *)
Definition notna {V} (s : Series V) : Series V :=
  filter (λ e, is_Some e.2) s.

(** The values [sel_top_vals] keeps rows for: the index of the ten largest
    counts. *)
Definition top_values {V} `{EqDecision V} (s : Series V) : list V :=
  index_of (nlargest 10 (value_counts s)).

(** The counts [nlargest] ranks. *)
Definition ranked {V} `{EqDecision V} (s : Series V) : list (V * nat) :=
  merge_sort by_count (value_counts s).

(** An entry whose cell holds one of [vals]. *)
Definition kept {V} (vals : list V) (e : nat * option V) : Prop :=
  match e.2 with
  | Some v => v ∈ vals
  | None => False
  end.

Global Instance kept_dec {V} `{EqDecision V} (vals : list V) e :
  Decision (kept vals e).
Proof. unfold kept. destruct (e.2); apply _. Defined.

(** The count a tally holds for [v], 0 when it holds none. *)
Fixpoint lookup_count {V} `{EqDecision V} (v : V) (acc : list (V * nat)) : nat :=
  match acc with
  | [] => 0
  | (w, n) :: acc' => if decide (v = w) then n else lookup_count v acc'
  end.

(** What a step of the harvest does to the log: it appends events, none
    of them a close, and with one open per record it adds. *)
Definition appends {A} (acc : list A) (out : result (list A) * world)
    (w : world) : Prop :=
  ∃ evs, log out.2 = log w ++ evs
    ∧ Forall (λ e, is_close e = false) evs
    ∧ ∀ recs, out.1 = ok recs → length recs = length acc + length (opened evs).


(** ** Sample data *)

Definition image (l : list (string * string)) : fdata :=
  Image (list_to_map (prod_map id Build_IfdTag <$> l)).

(** A directory with [a.NEF], [b.raw], [c.jpg] and [d.txt]. *)
Definition four_files : tree :=
  Dir [("a.NEF", image [("EXIF FNumber", "28/10"); ("EXIF Make", "NIKON")]);
       ("b.raw", image []);
       ("c.jpg", image [("EXIF FNumber", "40/10")]);
       ("d.txt", Corrupt)]
      [].

Definition photos (t : tree) : string → option tree :=
  λ d, if bool_decide (d = "photos") then Some t else None.

Definition boot : world := World 0 [].

(** Three raw files, the first without an exposure time. *)
Definition three_files : tree :=
  Dir [("a.nef", image [("EXIF ISOSpeedRatings", "200")]);
       ("b.nef", image [("EXIF ExposureTime", "1/500")]);
       ("c.nef", image [("EXIF ExposureTime", "1/60")])]
      [].

(** Eleven speeds: one that occurs once, then ten that occur twice. *)
Definition eleven_speeds : list (option string) :=
  Some "1/8000"
    :: ((λ t, Some t) <$>
          flat_map (λ t, [t; t])
                   ["1/10"; "1/20"; "1/30"; "1/40"; "1/50";
                    "1/60"; "1/70"; "1/80"; "1/90"; "1/100"]).

(** A store with one dict, and a predicate on its items. *)
Definition sample_dict : gmap string nat := {[ "a" := 1; "b" := 2 ]}.
Definition sample_store : gmap nat (gmap string nat) := {[ 0 := sample_dict ]}.
Definition even_value (item : string * nat) : bool := Nat.even item.2.

(** A frame with the one column [name] holding [cells]. *)
Definition one_column (name : string) (cells : list (option string))
    : DataFrame pyval :=
  Frame [name] (imap (λ i c, (i, [PStr <$> c])) cells).

(** [argparse] on command lines without options: the first argument that
    does not start with a dash is [dir], everything else is unknown;
    without a [dir] the parser exits with status 2. *)
Definition starts_with_dash (s : string) : bool :=
  match s with
  | String "-" _ => true
  | _ => false
  end.

Definition positional_parser (argv : list string)
    : result (Namespace * list string) :=
  match list_find (λ a, starts_with_dash a = false) argv with
  | Some (i, d) => ok (Build_Namespace d, delete i argv)
  | None => raise (SystemExit 2)
  end.

(** The files the harvester collects from: those of the walk that pass
    its extension test. *)
Definition matching_files (disk : string → option tree) (dir : string)
    : list (string * fdata) :=
  filter (λ file, raw_ext file.1) (walk_files disk dir).

(** One turn of the harvester on a file it collects from. *)
Definition harvest_step (tags : list (gmap string pyval))
    (file : string * fdata) : io (list (gmap string pyval)) :=
  let! f := py_open file.1 file.2 in
  let! record := collect_tags f exif_subset in
  io_ret (tags ++ [record]).

(** The events of a harvest over the files [l] it collects from, [fd]
    being the next free descriptor: an open and a read per file, up to the
    first file that fails; a file that cannot be opened leaves no event. *)
Fixpoint harvest_log (fd : nat) (l : list (string * fdata)) : list event :=
  match l with
  | [] => []
  | file :: l' =>
      match file.2 with
      | Unreadable => []
      | _ =>
          EvOpen file.1 fd :: EvProcess fd
            :: match record_of file with
               | inl _ => []
               | inr _ => harvest_log (S fd) l'
               end
      end
  end.

(** Three raw files, the second of which cannot be decoded. *)
Definition broken_files : tree :=
  Dir [("a.nef", image [("EXIF ExposureTime", "1/125")]);
       ("b.nef", Corrupt);
       ("c.nef", image [("EXIF ExposureTime", "1/250")])]
      [].

(** Two raw files with all four tags. *)
Definition complete_files : tree :=
  Dir [("a.nef", image [("EXIF ExposureTime", "1/125");
                        ("EXIF ISOSpeedRatings", "200");
                        ("EXIF FocalLength", "50");
                        ("EXIF FNumber", "28/10")]);
       ("b.nef", image [("EXIF ExposureTime", "1/250");
                        ("EXIF ISOSpeedRatings", "200");
                        ("EXIF FocalLength", "35");
                        ("EXIF FNumber", "4")])]
      [].

(** A stack of the merge sort whose runs are sorted and hold entries that
    satisfy [Q] only. *)
Definition runs_sorted {A} (R : relation A) (Q : A → Prop)
    (st : list (option (list A))) : Prop :=
  Forall (λ o, match o with
               | Some l => Sorted R l ∧ Forall Q l
               | None => True
               end) st.


(** * Properties *)

(** ** Results *)

Lemma rfold_app {A B} (body : B → A → result B) acc l1 l2 :
  rfold body acc (l1 ++ l2) = rbind (rfold body acc l1) (λ acc', rfold body acc' l2).
Proof.
  revert acc. induction l1 as [|x l1 IH]; intros acc; simpl; [done|].
  destruct (body acc x); simpl; auto.
Qed.

Lemma rmap_acc {A B} (f : A → result B) acc l :
  rfold (λ acc x, rbind (f x) (λ y, ok (acc ++ [y]))) acc l
  = rbind (rmap f l) (λ ys, ok (acc ++ ys)).
Proof.
  unfold rmap. revert acc. induction l as [|x l IH]; intros acc; simpl.
  - by rewrite app_nil_r.
  - destruct (f x) as [e|y]; simpl; [done|].
    rewrite (IH (acc ++ [y])), (IH [y]).
    destruct (rfold _ [] l); simpl; [done|]. by rewrite <-app_assoc.
Qed.

(** [rmap] maps from left to right up to the first exception. *)
Lemma rmap_cons {A B} (f : A → result B) x l :
  rmap f (x :: l)
  = rbind (f x) (λ y, rbind (rmap f l) (λ ys, ok (y :: ys))).
Proof.
  unfold rmap at 1. simpl. destruct (f x) as [e|y]; simpl; [done|].
  exact (rmap_acc f [y] l).
Qed.

Lemma rmap_ok {A B} (f : A → result B) l ys :
  rmap f l = ok ys ↔ Forall2 (λ x y, f x = ok y) l ys.
Proof.
  revert ys. induction l as [|x l IH]; intros ys.
  - unfold rmap; simpl. split.
    + intros [= <-]. constructor.
    + intros Hys. by inversion Hys.
  - rewrite rmap_cons. split.
    + destruct (f x) as [e|y] eqn:Hx; simpl; [done|].
      destruct (rmap f l) as [e|zs] eqn:Hl; simpl; [done|].
      intros [= <-]. constructor; [done|]. by apply IH.
    + intros Hys. inversion Hys as [|? y ? zs Hx Hl]; subst.
      rewrite Hx. simpl. apply IH in Hl. by rewrite Hl.
Qed.

(** ** The tag filter *)

Section FilterDict.
Context {K : Type} `{Countable K} {V : Type}.
Implicit Types (m : gmap K V) (callback : K * V → bool).

Lemma filter_dict_lookup m callback k :
  filter_dict m callback !! k
  = m !! k ≫= λ v, if callback (k, v) then Some v else None.
Proof.
  unfold filter_dict.
  apply (map_fold_weak_ind (λ r m', r !! k
    = m' !! k ≫= λ v, if callback (k, v) then Some v else None)).
  - by rewrite !lookup_empty.
  - intros i x m' r Hi IH. destruct (decide (i = k)) as [->|Hne].
    + rewrite lookup_insert_eq. simpl. rewrite Hi in IH. simpl in IH.
      destruct (callback (k, x)); [by rewrite lookup_insert_eq|done].
    + rewrite (lookup_insert_ne m') by done.
      destruct (callback (i, x)); [by rewrite lookup_insert_ne|done].
Qed.

Lemma filter_dict_Some m callback k v :
  filter_dict m callback !! k = Some v ↔ m !! k = Some v ∧ callback (k, v) = true.
Proof.
  rewrite filter_dict_lookup. destruct (m !! k) as [x|]; simpl.
  - destruct (callback (k, x)) eqn:Hp.
    + split; [intros [= <-]; done|intros [[= <-] _]; done].
    + split; [done|]. intros [[= <-] Hv]. congruence.
  - split; [done|]. by intros [? _].
Qed.

Lemma filter_dict_empty callback : filter_dict (∅ : gmap K V) callback = ∅.
Proof. apply map_eq. intros k. by rewrite filter_dict_lookup, !lookup_empty. Qed.

(** The loop on the store only ever writes to the new dict. *)
Lemma store_loop callback (σ : gmap nat (gmap K V)) b (d : gmap K V) l :
  foldl (λ σ' item,
           if callback item then Store.setitem b item.1 item.2 σ' else σ')
        (<[b:=d]> σ) l
  = <[b:=foldl (λ d' item,
                  if callback item then <[item.1:=item.2]> d' else d') d l]> σ.
Proof.
  revert d. induction l as [|[k v] l IH]; intros d; simpl; [done|].
  destruct (callback (k, v)); [|apply IH].
  unfold Store.setitem at 2. simpl. rewrite alter_insert_eq. apply IH.
Qed.

Lemma insert_loop_lookup callback (d : gmap K V) l k :
  NoDup l.*1 →
  foldl (λ d' item, if callback item then <[item.1:=item.2]> d' else d') d l !! k
  = match (list_to_map l : gmap K V) !! k with
    | Some v => if callback (k, v) then Some v else d !! k
    | None => d !! k
    end.
Proof.
  revert d. induction l as [|[i x] l IH]; intros d Hnd; simpl; [done|].
  apply NoDup_cons in Hnd as [Hi Hnd]. rewrite IH by done.
  destruct (decide (i = k)) as [->|Hne].
  - rewrite lookup_insert_eq.
    rewrite (not_elem_of_list_to_map_1 l k Hi).
    destruct (callback (k, x)); [by rewrite lookup_insert_eq|done].
  - rewrite (lookup_insert_ne (list_to_map l)) by done.
    destruct (callback (i, x)); [|done].
    by rewrite lookup_insert_ne.
Qed.

(** On the store the loop builds the dict [filter_dict] denotes. *)
Lemma store_loop_filter_dict callback m :
  foldl (λ d' item, if callback item then <[item.1:=item.2]> d' else d')
        ∅ (map_to_list m)
  = filter_dict m callback.
Proof.
  apply map_eq. intros k.
  rewrite insert_loop_lookup by apply NoDup_fst_map_to_list.
  rewrite list_to_map_to_list, filter_dict_lookup, lookup_empty.
  destruct (m !! k) as [v|]; simpl; [|done]. by destruct (callback (k, v)).
Qed.

(** C8: [filter_dict] returns a new dict whose entries are exactly the
    entries of the input that satisfy the predicate, each with its
    value; the input dict, and every other object of the store, is as it
    was; an empty input gives an empty output. *)
Theorem filter_dict_spec (σ : gmap nat (gmap K V)) a m callback :
  σ !! a = Some m →
  let '(b, σ') := Store.filter_dict a callback σ in
  σ !! b = None
  ∧ σ' !! a = Some m
  ∧ (∀ c, c ≠ b → σ' !! c = σ !! c)
  ∧ σ' !! b = Some (filter_dict m callback)
  ∧ (∀ k v, filter_dict m callback !! k = Some v
            ↔ m !! k = Some v ∧ callback (k, v) = true)
  ∧ (m = ∅ → filter_dict m callback = ∅).
Proof.
  intros Ha. unfold Store.filter_dict, Store.dict_new, Store.items.
  set (b := fresh (dom σ)).
  assert (σ !! b = None) as Hb by apply not_elem_of_dom, is_fresh.
  assert (a ≠ b) as Hab by congruence.
  rewrite lookup_insert_ne, Ha by done. simpl.
  rewrite store_loop, store_loop_filter_dict.
  split_and!.
  - done.
  - by rewrite lookup_insert_ne.
  - intros c Hc. by rewrite lookup_insert_ne.
  - by rewrite lookup_insert_eq.
  - intros k v. apply filter_dict_Some.
  - intros ->. apply filter_dict_empty.
Qed.
End FilterDict.

(** ** The tag collector *)

Lemma dict_comprehension_acc {V W} (f : string → V → result W)
    (l : list (string * V)) (acc tags : gmap string W) :
  NoDup l.*1 →
  rfold (λ acc kv, rbind (f kv.1 kv.2) (λ x, ok (<[kv.1:=x]> acc))) acc l
    = ok tags →
  ∀ k, match (list_to_map l : gmap string V) !! k with
       | Some v => ∃ x, f k v = ok x ∧ tags !! k = Some x
       | None => tags !! k = acc !! k
       end.
Proof.
  revert acc. induction l as [|[i v] l IH]; intros acc Hnd Hrun k; simpl in *.
  - injection Hrun as <-. by rewrite lookup_empty.
  - apply NoDup_cons in Hnd as [Hi Hnd].
    destruct (f i v) as [e|x] eqn:Hf; simpl in Hrun; [done|].
    specialize (IH _ Hnd Hrun).
    destruct (decide (i = k)) as [->|Hne].
    + rewrite lookup_insert_eq. exists x. split; [done|].
      specialize (IH k). rewrite (not_elem_of_list_to_map_1 l k Hi) in IH.
      by rewrite IH, lookup_insert_eq.
    + rewrite lookup_insert_ne by done. specialize (IH k).
      destruct (list_to_map l !! k); [done|]. by rewrite IH, lookup_insert_ne.
Qed.

Lemma dict_comprehension_lookup {V W} (f : string → V → result W)
    (d : gmap string V) (tags : gmap string W) :
  dict_comprehension f d = ok tags →
  ∀ k, match d !! k with
       | Some v => ∃ x, f k v = ok x ∧ tags !! k = Some x
       | None => tags !! k = None
       end.
Proof.
  intros Hrun k. unfold dict_comprehension in Hrun.
  pose proof (dict_comprehension_acc f _ _ _ (NoDup_fst_map_to_list d) Hrun k)
    as Hk.
  rewrite list_to_map_to_list in Hk. destruct (d !! k); [done|].
  by rewrite Hk, lookup_empty.
Qed.

Lemma selected_lookup {V} (raw : gmap string V) k :
  filter_dict raw (λ elem, bool_decide (elem.1 ∈ exif_subset)) !! k
  = if decide (k ∈ exif_subset) then raw !! k else None.
Proof.
  rewrite filter_dict_lookup. destruct (raw !! k) as [v|]; simpl.
  - unfold bool_decide. by destruct (decide_rel _ _ _).
  - by destruct (decide _).
Qed.

Lemma collect_tags_run fd data tags_subset w :
  collect_tags (Handle fd data) tags_subset w
  = (match data with
     | Image _ => record_of ("", data)
     | _ => raise DecodeError
     end, emit (EvProcess fd) w).
Proof.
  unfold collect_tags, io_bind, process_file, io_lift, io_ret, record_of.
  destruct data as [| |raw]; simpl; try done.
  by destruct (dict_comprehension _ _).
Qed.

(** C5: every tag the collector keeps is stored as the text of its value,
    except the F-number, which is stored as what that text evaluates to:
    ["28/10"] gives 2.8 and ["40/10"] gives 4.0. *)
Theorem collect_tags_normalizes f tags_subset w tags w' :
  collect_tags f tags_subset w = (ok tags, w') →
  ∃ raw, h_data f = Image raw
    ∧ (∀ k v, raw !! k = Some v → k ∈ exif_subset → k ≠ "EXIF FNumber" →
              tags !! k = Some (PStr (str v)))
    ∧ (∀ v, raw !! "EXIF FNumber" = Some v →
            ∃ x, eval (str v) = ok x ∧ tags !! "EXIF FNumber" = Some x)
    ∧ (∀ k, is_Some (tags !! k) → k ∈ exif_subset ∧ is_Some (raw !! k))
    ∧ eval "28/10" = ok (PFloat (Prim2SF 2.8%float))
    ∧ eval "40/10" = ok (PFloat (Prim2SF 4.0%float)).
Proof.
  destruct f as [fd data]. rewrite collect_tags_run.
  destruct data as [| |raw]; try done. unfold record_of; simpl.
  intros [= Hrun _]. exists raw. split; [done|].
  pose proof (dict_comprehension_lookup _ _ _ Hrun) as Hk.
  split_and!.
  - intros k v Hv Hin Hne. specialize (Hk k).
    rewrite selected_lookup, decide_True, Hv in Hk by done.
    destruct Hk as (x & Hx & ->). unfold tag_value in Hx.
    rewrite bool_decide_eq_false_2 in Hx by done. by injection Hx as <-.
  - intros v Hv. specialize (Hk "EXIF FNumber").
    rewrite selected_lookup, decide_True, Hv in Hk
      by (unfold exif_subset; set_solver).
    destruct Hk as (x & Hx & ->). by exists x.
  - intros k [x Hx]. specialize (Hk k). rewrite selected_lookup in Hk.
    destruct (decide (k ∈ exif_subset)) as [Hin|]; [|congruence].
    destruct (raw !! k) as [v|]; [eauto|congruence].
  - vm_compute; reflexivity.
  - vm_compute; reflexivity.
Qed.

(** C3, at an input where the code departs from it: asked for the make of
    the camera alone, the collector returns the ISO rating and no make; it
    filters by the fixed list [exif_subset] whatever [tags_subset] is. *)
Theorem collect_tags_subset_ignored :
  (collect_tags
     (Handle 0 (image [("EXIF Make", "NIKON"); ("EXIF ISOSpeedRatings", "200")]))
     ["EXIF Make"] boot).1
  = ok {[ "EXIF ISOSpeedRatings" := PStr "200" ]}
  ∧ ∀ f tags_subset tags_subset' w,
      collect_tags f tags_subset w = collect_tags f tags_subset' w.
Proof. split; [vm_compute; reflexivity|done]. Qed.

(** ** The directory harvester *)

(** A loop whose body returns what a pure body returns, whatever the
    world, returns what the pure loop returns. *)
Lemma io_fold_result {A B} (body : B → A → io B) (pure : B → A → result B)
    acc l w :
  (∀ acc x w, (body acc x w).1 = pure acc x) →
  (io_fold body acc l w).1 = rfold pure acc l.
Proof.
  intros Hbody. revert acc w. induction l as [|x l IH]; intros acc w; simpl.
  - done.
  - unfold io_bind. rewrite <-(Hbody acc x w).
    destruct (body acc x w) as [[e|acc'] w1]; simpl; [done|]. apply IH.
Qed.

Lemma rfold_filter {A B C} (P : C → Prop) `{∀ z, Decision (P z)}
    (g : A → C) (f : C → result B) acc l :
  rfold (λ acc x, if decide (P (g x))
                  then rbind (f (g x)) (λ y, ok (acc ++ [y]))
                  else ok acc) acc l
  = rfold (λ acc z, rbind (f z) (λ y, ok (acc ++ [y]))) acc (filter P (g <$> l)).
Proof.
  revert acc. induction l as [|x l IH]; intros acc; simpl; [done|].
  rewrite filter_cons. destruct (decide (P (g x))); simpl.
  - destruct (f (g x)); simpl; [done|]. apply IH.
  - apply IH.
Qed.

Lemma rfold_flat_map {A B C} (g : A → list C) (P : C → Prop)
    `{∀ z, Decision (P z)} (step : B → C → result B) acc l :
  rfold (λ acc e, rfold step acc (filter P (g e))) acc l
  = rfold step acc (filter P (flat_map g l)).
Proof.
  revert acc. induction l as [|e l IH]; intros acc; simpl; [done|].
  rewrite filter_app, rfold_app.
  destruct (rfold step acc (filter P (g e))); simpl; [done|]. apply IH.
Qed.

(** Opening a file and collecting its tags returns the record of the
    file. *)
Lemma open_collect_result filepath data tags w :
  ((let! f := py_open filepath data in
    let! record := collect_tags f exif_subset in
    io_ret (tags ++ [record])) w).1
  = rbind (record_of (filepath, data)) (λ record, ok (tags ++ [record])).
Proof.
  unfold io_bind, py_open.
  destruct data as [| |raw]; cbn -[collect_tags record_of]; [done| |];
    rewrite collect_tags_run; cbn -[record_of].
  - done.
  - change (record_of ("", Image raw)) with (record_of (filepath, Image raw)).
    by destruct (record_of _).
Qed.

Lemma harvest_result disk dir w :
  (harvest_exifs_from_dir disk dir w).1
  = rmap record_of (filter (λ file, raw_ext file.1) (walk_files disk dir)).
Proof.
  unfold harvest_exifs_from_dir, rmap, walk_files.
  rewrite <-rfold_flat_map.
  apply io_fold_result. intros acc [[subdir dirs] files] w1.
  rewrite <-rfold_filter.
  apply io_fold_result. intros tags [filename data] w2. simpl.
  unfold raw_ext. simpl.
  destruct (decide (lower (splitext (subdir +:+ os_sep +:+ filename)).2
                    ∈ [".nef"; ".raw"])) as [Hext|Hext].
  - rewrite bool_decide_eq_false_2 by (by intros ?).
    apply open_collect_result.
  - by rewrite bool_decide_eq_true_2.
Qed.

(** C7: the harvester returns the records of the files the walk reaches
    whose extension is [.nef] or [.raw] in any case, one record per such
    file, in the order of the walk; other files are passed over, and a
    record with fewer than four fields, even none, is kept.  The walk
    reaches the files of the root and whatever it reaches in a
    subdirectory.  So it is for the directory with [a.NEF], [b.raw],
    [c.jpg] and [d.txt]. *)
Theorem harvest_matching_files :
  (∀ disk dir w,
     (harvest_exifs_from_dir disk dir w).1
     = rmap record_of (filter (λ file, raw_ext file.1) (walk_files disk dir)))
  ∧ (∀ top files subdirs,
       (top, subdirs.*1, files) ∈ walk top (Dir files subdirs))
  ∧ (∀ top files subdirs name sub entry,
       (name, sub) ∈ subdirs →
       entry ∈ walk (path_join top name) sub →
       entry ∈ walk top (Dir files subdirs))
  ∧ (∀ filepath, record_of (filepath, Image ∅) = ok ∅)
  ∧ (harvest_exifs_from_dir (photos four_files) "photos" boot).1
    = ok [ {[ "EXIF FNumber" := PFloat (Prim2SF 2.8%float) ]}; ∅ ]
  ∧ filter (λ file, raw_ext file.1) (walk_files (photos four_files) "photos")
    = [("photos/a.NEF", image [("EXIF FNumber", "28/10"); ("EXIF Make", "NIKON")]);
       ("photos/b.raw", image [])].
Proof.
  split_and!.
  - apply harvest_result.
  - intros top files subdirs. simpl. left.
  - intros top files subdirs name sub entry Hsub Hentry. simpl. right.
    apply list_elem_of_In, in_flat_map. exists (name, sub).
    split; by apply list_elem_of_In.
  - intros filepath. unfold record_of; simpl.
    by rewrite filter_dict_empty.
  - vm_compute; reflexivity.
  - vm_compute; reflexivity.
Qed.

(** *** File handles *)

Lemma live_from_app acc l1 l2 :
  live_from acc (l1 ++ l2) = live_from (live_from acc l1) l2.
Proof.
  revert acc. induction l1 as [|e l1 IH]; intros acc; simpl; [done|].
  destruct e; apply IH.
Qed.

Lemma live_from_no_close acc l :
  Forall (λ e, is_close e = false) l → live_from acc l = acc ++ opened l.
Proof.
  revert acc. induction l as [|e l IH]; intros acc Hl; simpl.
  - by rewrite app_nil_r.
  - apply Forall_cons in Hl as [He Hl]. destruct e; simpl in *; try done.
    + rewrite IH by done. by rewrite <-app_assoc.
    + by apply IH.
    + by apply IH.
    + by apply IH.
Qed.

Lemma opened_app l1 l2 : opened (l1 ++ l2) = opened l1 ++ opened l2.
Proof. apply omap_app. Qed.

Lemma io_fold_appends {A B} (body : list B → A → io (list B)) acc l w :
  (∀ acc x w, appends acc (body acc x w) w) →
  appends acc (io_fold body acc l w) w.
Proof.
  intros Hbody. revert acc w. induction l as [|x l IH]; intros acc w; simpl.
  - exists []. split_and!; [by rewrite app_nil_r|done|].
    intros recs [= <-]. simpl. lia.
  - unfold io_bind. destruct (Hbody acc x w) as (evs1 & Hlog1 & Hcl1 & Hn1).
    destruct (body acc x w) as [[e|acc'] w1]; simpl in *.
    + exists evs1. split_and!; [done|done|]. intros recs [=].
    + destruct (IH acc' w1) as (evs2 & Hlog2 & Hcl2 & Hn2).
      exists (evs1 ++ evs2). split_and!.
      * by rewrite Hlog2, Hlog1, app_assoc.
      * by apply Forall_app.
      * intros recs Hrecs. rewrite opened_app, length_app.
        rewrite (Hn2 _ Hrecs), (Hn1 _ eq_refl). lia.
Qed.

Local Ltac open_and_process :=
  eexists [_; _]; unfold emit; simpl;
  split_and!; [by rewrite <-app_assoc|by repeat constructor|].

Lemma harvest_appends disk dir w :
  appends [] (harvest_exifs_from_dir disk dir w) w.
Proof.
  unfold harvest_exifs_from_dir.
  apply io_fold_appends. intros acc [[subdir dirs] files] w1.
  apply io_fold_appends. intros tags [filename data] w2.
  destruct (bool_decide _).
  { exists []. split_and!; [by rewrite app_nil_r|done|].
    intros recs [= <-]. simpl. lia. }
  unfold io_bind, py_open. destruct data as [| |raw].
  - exists []. split_and!; [by rewrite app_nil_r|done|]. intros recs [=].
  - cbn -[collect_tags]. rewrite collect_tags_run. simpl.
    open_and_process. intros recs [=].
  - cbn -[collect_tags]. rewrite collect_tags_run. cbn -[record_of].
    destruct (record_of _) as [e|record]; simpl.
    + open_and_process. intros recs [=].
    + open_and_process. intros recs [= <-]. rewrite length_app. simpl. lia.
Qed.

(** C2, as the code has it: the harvester opens a handle for each file it
    collects from and closes none; whether it returns or raises, every
    handle it opened is still open, next to those that were open before,
    and a harvest that returns has opened one handle per record. *)
Theorem harvest_closes_nothing disk dir w :
  ∃ evs,
    log (harvest_exifs_from_dir disk dir w).2 = log w ++ evs
    ∧ (∀ fd, EvClose fd ∉ evs)
    ∧ live (log w ++ evs) = live (log w) ++ opened evs
    ∧ ∀ recs, (harvest_exifs_from_dir disk dir w).1 = ok recs →
              length (opened evs) = length recs.
Proof.
  destruct (harvest_appends disk dir w) as (evs & Hlog & Hcl & Hn).
  exists evs. split_and!.
  - done.
  - intros fd Hfd. rewrite Forall_forall in Hcl. by apply Hcl in Hfd.
  - unfold live. by rewrite live_from_app, live_from_no_close.
  - intros recs Hrecs. by rewrite (Hn _ Hrecs).
Qed.

(** C2 fails as stated: harvesting the directory with [a.NEF] and [b.raw]
    opens the second file while the first is open and closes neither. *)
Lemma harvest_not_scoped :
  let l := log (harvest_exifs_from_dir (photos four_files) "photos" boot).2 in
  l = [EvOpen "photos/a.NEF" 0; EvProcess 0; EvOpen "photos/b.raw" 1; EvProcess 1]
  ∧ live l = [0; 1]
  ∧ ¬ one_at_a_time l
  ∧ ¬ scoped l.
Proof.
  assert (log (harvest_exifs_from_dir (photos four_files) "photos" boot).2
          = [EvOpen "photos/a.NEF" 0; EvProcess 0;
             EvOpen "photos/b.raw" 1; EvProcess 1]) as Hlog by (vm_compute; reflexivity).
  simpl. rewrite Hlog. split_and!.
  - done.
  - done.
  - intros Hone. specialize (Hone 4). vm_compute in Hone. lia.
  - intros [_ Hend]. discriminate Hend.
Qed.

(** ** The top-value selector *)

Section TopValues.
Context {V : Type} `{EqDecision V}.
Implicit Types (s : Series V) (l : list V) (acc : list (V * nat)).

(** *** Selecting rows by a mask *)

Lemma filter_ext_elem {A} (P Q : A → Prop) `{∀ x, Decision (P x)}
    `{∀ x, Decision (Q x)} (l : list A) :
  (∀ x, x ∈ l → (P x ↔ Q x)) → filter P l = filter Q l.
Proof.
  induction l as [|x l IH]; intros Hext; [done|].
  rewrite !filter_cons. rewrite IH by (intros y Hy; apply Hext; by right).
  destruct (decide (P x)) as [HP|HP].
  - rewrite decide_True; [done|]. apply Hext; [by left|done].
  - rewrite decide_False; [done|]. intros HQ. apply HP, Hext; [by left|done].
Qed.

Lemma mask_select_fmap {A B} (f : A → B) (rs : list A) mask :
  f <$> mask_select rs mask = mask_select (f <$> rs) mask.
Proof.
  revert mask. induction rs as [|r rs IH]; intros [|[] mask]; simpl; try done.
  by rewrite IH.
Qed.

Lemma getitem_mask_column (data : DataFrame V) x values mask :
  getitem data x = ok values →
  getitem (getitem_mask data mask) x = ok (mask_select values mask.*2).
Proof.
  unfold getitem, getitem_mask. simpl.
  destruct (list_find _ _) as [[j c]|]; [|done].
  intros [= <-]. by rewrite mask_select_fmap.
Qed.

Lemma mask_select_isin s vals :
  mask_select s (isin s vals).*2 = filter (kept vals) s.
Proof.
  unfold isin. induction s as [|[i c] s IH]; [done|].
  rewrite filter_cons. csimpl. rewrite IH.
  destruct c as [v|]; simpl.
  - destruct (decide (kept vals (i, Some v))) as [Hk|Hk].
    + by rewrite bool_decide_eq_true_2 by exact Hk.
    + by rewrite bool_decide_eq_false_2 by exact Hk.
  - by destruct (decide (kept vals (i, None))).
Qed.

(** [sel_top_vals] returns the entries of the column whose cell holds
    one of the top values. *)
Lemma sel_top_vals_filter (data : DataFrame V) x values :
  getitem data x = ok values →
  sel_top_vals data x = ok (filter (kept (top_values values)) values).
Proof.
  intros Hcol. unfold sel_top_vals. rewrite Hcol. simpl.
  rewrite (getitem_mask_column _ _ _ _ Hcol). by rewrite mask_select_isin.
Qed.

(** *** The tally *)

Lemma lookup_count_count_add v w acc :
  lookup_count w (count_add v acc)
  = if decide (w = v) then S (lookup_count v acc) else lookup_count w acc.
Proof.
  induction acc as [|[u n] acc IH]; simpl.
  - by repeat case_decide.
  - destruct (decide (v = u)) as [->|Hvu]; simpl; [|rewrite IH];
      repeat case_decide; simplify_eq; done.
Qed.

Lemma count_add_keys v acc :
  (count_add v acc).*1 = if decide (v ∈ acc.*1) then acc.*1 else acc.*1 ++ [v].
Proof.
  induction acc as [|[u n] acc IH]; cbn [count_add fmap list_fmap fst].
  - rewrite decide_False; [done|]. apply not_elem_of_nil.
  - destruct (decide (v = u)) as [->|Hvu]; cbn [fmap list_fmap fst].
    + rewrite decide_True; [done|]. apply list_elem_of_here.
    + rewrite IH. destruct (decide (v ∈ acc.*1)) as [Hin|Hin].
      * rewrite decide_True; [done|]. by apply list_elem_of_further.
      * rewrite decide_False; [done|]. by intros [?|?]%elem_of_cons.
Qed.

Lemma tally_snoc l v : tally (l ++ [v]) = count_add v (tally l).
Proof. unfold tally. by rewrite foldl_app. Qed.

Lemma tally_keys l :
  NoDup (tally l).*1 ∧ ∀ v, v ∈ (tally l).*1 ↔ v ∈ l.
Proof.
  induction l as [|x l [Hnd Hin]] using rev_ind.
  - split; [constructor|]. intros v. by rewrite !elem_of_nil.
  - rewrite tally_snoc, count_add_keys.
    destruct (decide (x ∈ (tally l).*1)) as [Hx|Hx].
    + split; [done|]. intros v. rewrite elem_of_app, list_elem_of_singleton, Hin.
      split; [by left|]. intros [?| ->]; [done|]. by apply Hin.
    + split.
      * apply NoDup_app. split_and!; [done| |apply NoDup_singleton].
        intros v Hv ->%list_elem_of_singleton. done.
      * intros v. by rewrite !elem_of_app, !list_elem_of_singleton, Hin.
Qed.

Lemma tally_lookup_count l v :
  lookup_count v (tally l) = length (filter (λ u, u = v) l).
Proof.
  induction l as [|x l IH] using rev_ind; [done|].
  rewrite tally_snoc, lookup_count_count_add, filter_app, length_app.
  rewrite filter_cons, filter_nil.
  destruct (decide (v = x)) as [->|Hne].
  - rewrite decide_True by done. simpl. rewrite IH. lia.
  - rewrite decide_False by done. simpl. rewrite IH. lia.
Qed.

Lemma lookup_count_elem acc v n :
  NoDup acc.*1 → (v, n) ∈ acc → lookup_count v acc = n.
Proof.
  induction acc as [|[u m] acc IH]; simpl; intros Hnd Hin.
  - by apply elem_of_nil in Hin.
  - apply NoDup_cons in Hnd as [Hu Hnd].
    apply elem_of_cons in Hin as [[= -> ->]|Hin].
    + by rewrite decide_True.
    + rewrite decide_False; [by apply IH|]. intros ->.
      apply Hu, list_elem_of_fmap. by exists (u, n).
Qed.

Lemma lookup_count_perm acc acc' v :
  NoDup acc.*1 → acc ≡ₚ acc' → lookup_count v acc = lookup_count v acc'.
Proof.
  intros Hnd Hp.
  assert (NoDup acc'.*1) as Hnd' by (by rewrite <-Hp).
  destruct (decide (v ∈ acc.*1)) as [Hv|Hv].
  - apply list_elem_of_fmap in Hv as ([u n] & -> & Hv). simpl.
    rewrite (lookup_count_elem acc u n) by done.
    rewrite Hp in Hv. by rewrite (lookup_count_elem acc' u n).
  - assert (∀ a, v ∉ a.*1 → lookup_count v a = 0) as Hzero.
    { induction a as [|[u n] a IH]; simpl; [done|].
      intros [Hu Hn]%not_elem_of_cons. by rewrite decide_False; [apply IH|]. }
    rewrite !Hzero; [done| |done]. by rewrite <-Hp.
Qed.

Lemma occurrences_dropna s v :
  occurrences v s = length (filter (λ u, u = v) (dropna s)).
Proof.
  unfold occurrences, dropna.
  induction s as [|[i c] s IH]; [done|].
  rewrite filter_cons. cbn [snd]. destruct c as [u|].
  - change (omap snd ((i, Some u) :: s)) with (u :: omap snd s).
    rewrite filter_cons. destruct (decide (u = v)) as [->|Hne].
    + rewrite decide_True by done. simpl. by rewrite IH.
    + by rewrite decide_False by congruence.
  - change (omap snd ((i, None) :: s)) with (omap snd s).
    by rewrite decide_False.
Qed.

Lemma dropna_notna s : dropna (notna s) = dropna s.
Proof.
  unfold dropna, notna. induction s as [|[i c] s IH]; [done|].
  rewrite filter_cons. cbn [snd]. destruct c as [v|].
  - rewrite decide_True by (by eexists).
    change (omap snd ((i, Some v) :: ?l)) with (v :: omap snd l).
    by rewrite IH.
  - by rewrite decide_False by (by intros [? ?]).
Qed.

Lemma elem_of_dropna s v : v ∈ dropna s ↔ ∃ i, (i, Some v) ∈ s.
Proof.
  unfold dropna. rewrite list_elem_of_omap. split.
  - intros ([i c] & Hin & Hc). simpl in Hc. subst c. by exists i.
  - intros [i Hin]. by exists (i, Some v).
Qed.

(** *** The ranking *)

Global Instance by_count_trans : Transitive (by_count (V:=V)).
Proof. intros a b c. unfold by_count. lia. Qed.

Global Instance by_count_total : Total (by_count (V:=V)).
Proof. intros a b. unfold by_count. lia. Qed.

Lemma ranked_perm s : ranked s ≡ₚ tally (dropna s).
Proof.
  unfold ranked, value_counts. by rewrite !merge_sort_Permutation.
Qed.

Lemma ranked_keys s :
  NoDup (ranked s).*1 ∧ ∀ v, v ∈ (ranked s).*1 ↔ v ∈ dropna s.
Proof.
  destruct (tally_keys (dropna s)) as [Hnd Hin].
  split; [by rewrite ranked_perm|].
  intros v. by rewrite ranked_perm.
Qed.

Lemma ranked_count s v n : (v, n) ∈ ranked s → n = occurrences v s.
Proof.
  intros Hin. rewrite occurrences_dropna, <-tally_lookup_count.
  rewrite <-(lookup_count_perm _ _ v (proj1 (ranked_keys s)) (ranked_perm s)).
  symmetry. apply lookup_count_elem; [apply ranked_keys|done].
Qed.

Lemma ranked_length s : length (ranked s) = length (distinct_values s).
Proof.
  unfold distinct_values. rewrite <-(length_fmap fst).
  apply Permutation_length, NoDup_Permutation.
  - apply ranked_keys.
  - apply NoDup_remove_dups.
  - intros v. rewrite elem_of_remove_dups. apply ranked_keys.
Qed.

Lemma top_values_take s : top_values s = take 10 (ranked s).*1.
Proof. unfold top_values, index_of, nlargest, ranked. by rewrite fmap_take. Qed.

Lemma top_values_NoDup s : NoDup (top_values s).
Proof.
  rewrite top_values_take.
  eapply sublist_NoDup; [apply ranked_keys|apply sublist_take].
Qed.

Lemma top_values_present s v : v ∈ top_values s → v ∈ dropna s.
Proof.
  rewrite top_values_take. intros Hv. apply ranked_keys.
  eapply elem_of_sublist; [done|apply sublist_take].
Qed.

(** A top value occurs at least as often as any value that is not one. *)
Lemma top_values_dominate s v w :
  v ∈ top_values s → w ∉ top_values s →
  occurrences w s ≤ occurrences v s.
Proof.
  intros Hv Hw.
  destruct (decide (w ∈ dropna s)) as [Hin|Hout].
  - unfold top_values, index_of, nlargest in Hv, Hw. fold (ranked s) in Hv, Hw.
    apply list_elem_of_fmap in Hv as ([v' n] & -> & Hv). simpl.
    apply ranked_keys, list_elem_of_fmap in Hin as ([w' m] & -> & Hin).
    simpl in *.
    rewrite <-(take_drop 10 (ranked s)) in Hin.
    apply elem_of_app in Hin as [Hin|Hin].
    { destruct Hw. apply list_elem_of_fmap. by exists (w', m). }
    pose proof (StronglySorted_merge_sort by_count (value_counts s)) as Hs.
    fold (ranked s) in Hs. rewrite <-(take_drop 10 (ranked s)) in Hs.
    pose proof (StronglySorted_app_1_elem_of _ _ _ _ _ Hs Hv Hin) as Hle.
    unfold by_count in Hle. simpl in Hle.
    assert ((v', n) ∈ ranked s) as Hv'
      by (eapply elem_of_sublist; [done|apply sublist_take]).
    assert ((w', m) ∈ ranked s) as Hw'
      by (eapply elem_of_sublist; [done|apply sublist_drop]).
    by rewrite <-(ranked_count _ _ _ Hv'), <-(ranked_count _ _ _ Hw').
  - rewrite (occurrences_dropna s w).
    assert (filter (λ u, u = w) (dropna s) = []) as ->; [|simpl; lia].
    apply elem_of_nil_inv. intros u [-> Hu]%list_elem_of_filter. done.
Qed.
(** *** The selector *)

(** C6: when the column holds at least ten distinct values, the rows
    returned hold exactly ten distinct values, and these are ten values
    of the column none of which occurs less often than a value left
    out. *)
Theorem sel_top_vals_ten (data : DataFrame V) x values :
  getitem data x = ok values →
  10 ≤ length (distinct_values values) →
  ∃ res top,
    sel_top_vals data x = ok res
    ∧ length (distinct_values res) = 10
    ∧ length top = 10
    ∧ NoDup top
    ∧ (∀ v w, v ∈ top → w ∉ top →
              occurrences w values ≤ occurrences v values)
    ∧ (∀ i c, (i, c) ∈ res → ∃ v, c = Some v ∧ v ∈ top).
Proof.
  intros Hcol Hten. exists (filter (kept (top_values values)) values),
    (top_values values).
  assert (length (top_values values) = 10) as Hlen.
  { rewrite top_values_take, length_take, length_fmap, ranked_length. lia. }
  split_and!.
  - by apply sel_top_vals_filter.
  - rewrite <-Hlen. unfold distinct_values.
    apply Permutation_length, NoDup_Permutation.
    + apply NoDup_remove_dups.
    + apply top_values_NoDup.
    + intros v. rewrite elem_of_remove_dups, elem_of_dropna. split.
      * intros [i [Hk _]%list_elem_of_filter]. exact Hk.
      * intros Hv. pose proof (top_values_present _ _ Hv) as Hin.
        apply elem_of_dropna in Hin as [i Hi]. exists i. apply list_elem_of_filter. by split.
  - done.
  - apply top_values_NoDup.
  - intros v w. apply top_values_dominate.
  - intros i c [Hk _]%list_elem_of_filter. unfold kept in Hk. simpl in Hk.
    destruct c as [v|]; [by exists v|done].
Qed.

(** C1, as the code has it: when the column holds fewer than ten
    distinct values, the selector returns the rows whose cell in the
    column is not missing, as they are and in their order; these are
    all rows when no cell of the column is missing. *)
Theorem sel_top_vals_few (data : DataFrame V) x values :
  getitem data x = ok values →
  length (distinct_values values) < 10 →
  sel_top_vals data x = ok (notna values)
  ∧ ((∀ e, e ∈ values → is_Some e.2) → sel_top_vals data x = ok values).
Proof.
  intros Hcol Hfew.
  assert (∀ v, v ∈ top_values values ↔ v ∈ dropna values) as Htop.
  { intros v. rewrite top_values_take, take_ge.
    - apply ranked_keys.
    - rewrite length_fmap, ranked_length. lia. }
  assert (sel_top_vals data x = ok (notna values)) as Hsel.
  { rewrite (sel_top_vals_filter _ _ _ Hcol). f_equal. unfold notna.
    apply filter_ext_elem. intros [i c] Hin. unfold kept. simpl.
    destruct c as [v|].
    - rewrite Htop, elem_of_dropna. split; [by eexists|]. intros _. by exists i.
    - split; [done|]. by intros [? ?]. }
  split; [done|]. intros Hall. rewrite Hsel. f_equal. unfold notna.
  clear -Hall. induction values as [|e values IH]; [done|].
  rewrite filter_cons, decide_True by (apply Hall; left).
  rewrite IH; [done|]. intros e' He'. apply Hall. by right.
Qed.
(** C10: a row whose cell in the column is missing is never returned,
    and missing cells take no part in the counts that decide the top
    values: the rows returned are those of the column without its missing
    cells that hold one of the top values counted on that column without
    its missing cells, every such value is held by a row returned, and
    each count is the number of cells that hold the value.  So it is
    whatever the number of distinct values. *)
Theorem sel_top_vals_skips_missing (data : DataFrame V) x res :
  sel_top_vals data x = ok res →
  ∃ values,
    getitem data x = ok values
    ∧ (∀ i, (i, None) ∉ res)
    ∧ res = filter (kept (top_values (notna values))) (notna values)
    ∧ (∀ i v, (i, Some v) ∈ res
              ↔ (i, Some v) ∈ values ∧ v ∈ top_values (notna values))
    ∧ (∀ v, v ∈ top_values (notna values) ↔ ∃ i, (i, Some v) ∈ res)
    ∧ value_counts values = value_counts (notna values)
    ∧ top_values values = top_values (notna values)
    ∧ (∀ v n, (v, n) ∈ value_counts values → n = occurrences v values).
Proof.
  intros Hsel. destruct (getitem data x) as [e|values] eqn:Hcol.
  { unfold sel_top_vals in Hsel. by rewrite Hcol in Hsel. }
  exists values. rewrite (sel_top_vals_filter _ _ _ Hcol) in Hsel.
  injection Hsel as <-.
  assert (value_counts values = value_counts (notna values)) as Hvc
    by (unfold value_counts; by rewrite dropna_notna).
  assert (top_values values = top_values (notna values)) as Htop
    by (unfold top_values; by rewrite Hvc).
  split_and!.
  - done.
  - by intros i [Hk _]%list_elem_of_filter.
  - rewrite <-Htop. unfold notna. rewrite list_filter_filter.
    apply list_filter_iff. intros [i c]. unfold kept. simpl.
    destruct c as [v|]; [|tauto]. split; [|tauto]. intros Hv. by split; eauto.
  - intros i v. rewrite <-Htop, list_elem_of_filter. unfold kept. simpl. tauto.
  - intros v. rewrite <-Htop. split.
    + intros Hv. pose proof (top_values_present _ _ Hv) as Hin.
      apply elem_of_dropna in Hin as [i Hi]. exists i.
      apply list_elem_of_filter. by split.
    + intros [i [Hk _]%list_elem_of_filter]. exact Hk.
  - done.
  - done.
  - intros v n Hin. apply ranked_count. unfold ranked.
    by rewrite merge_sort_Permutation.
Qed.
End TopValues.

(** C1 fails as stated: of two rows, one with a missing cell, the selector
    returns one, though the column holds a single value. *)
Lemma sel_top_vals_drops_missing_row :
  let data := one_column "ISO" [Some "200"; None] in
  let values := [(0, Some (PStr "200")); (1, None)] in
  getitem data "ISO" = ok values
  ∧ length (distinct_values values) < 10
  ∧ sel_top_vals data "ISO" = ok [(0, Some (PStr "200"))]
  ∧ ¬ (∀ (data : DataFrame pyval) x values,
         getitem data x = ok values →
         length (distinct_values values) < 10 →
         sel_top_vals data x = ok values).
Proof.
  simpl. split_and!.
  - vm_compute; reflexivity.
  - vm_compute. lia.
  - vm_compute; reflexivity.
  - intros Hall.
    specialize (Hall (one_column "ISO" [Some "200"; None]) "ISO"
                     [(0, Some (PStr "200")); (1, None)]).
    assert (sel_top_vals (one_column "ISO" [Some "200"; None]) "ISO"
            = ok [(0, Some (PStr "200"))]) as Hrun by (vm_compute; reflexivity).
    rewrite Hrun in Hall. discriminate Hall; [vm_compute; reflexivity|vm_compute; lia].
Qed.

(** ** The report *)

(** *** Labels used as positions *)

Lemma rmap_raise {A B} (f : A → result B) e l :
  (∀ x, x ∈ l → f x = raise e ∨ ∃ y, f x = ok y) →
  (∃ x, x ∈ l ∧ f x = raise e) →
  rmap f l = raise e.
Proof.
  induction l as [|x l IH]; intros Hall (x0 & Hin & Hx0).
  - by apply elem_of_nil in Hin.
  - rewrite rmap_cons.
    destruct (Hall x) as [Hx|[y Hx]]; [by left| |]; rewrite Hx; simpl; [done|].
    apply elem_of_cons in Hin as [->|Hin]; [by rewrite Hx in Hx0|].
    rewrite IH; [done| |by exists x0].
    intros z Hz. apply Hall. by right.
Qed.

(** [iloc] raises as soon as one position is past the end. *)
Lemma iloc_out_of_range {A} (s : list A) positions i :
  i ∈ positions → length s ≤ i → iloc s positions = raise IndexError.
Proof.
  intros Hin Hlen. unfold iloc. apply rmap_raise.
  - intros j _. destruct (s !! j) as [e|]; [right; by exists e|by left].
  - exists i. split; [done|]. by rewrite lookup_ge_None_2.
Qed.

Lemma series_apply_labels {A B} (f : option A → result B) (s : Series A) out :
  series_apply f s = ok out → out.*1 = s.*1.
Proof.
  unfold series_apply. rewrite rmap_ok. intros Hall.
  induction Hall as [|[i c] [j y] s out Hy _ IH]; [done|].
  simpl in Hy. destruct (f c); simpl in Hy; [done|].
  injection Hy as -> _. csimpl. by f_equal.
Qed.

(** Line 135 raises [IndexError] whenever the selected rows carry a label
    that is not a position among them, which is so as soon as a row left
    out comes before a row kept. *)
Lemma sorted_shutter_speeds_label_past_end exifs_df top speeds i :
  sel_top_vals exifs_df "Shutter Speed" = ok top →
  series_apply eval_cell top = ok speeds →
  i ∈ top.*1 → length top ≤ i →
  sorted_shutter_speeds exifs_df = raise IndexError.
Proof.
  intros Hsel Heval Hi Hlen. unfold sorted_shutter_speeds.
  rewrite Hsel. simpl. rewrite Heval. simpl.
  apply (iloc_out_of_range _ _ i); [|done].
  unfold index_of, sort_values. rewrite merge_sort_Permutation.
  by rewrite (series_apply_labels _ _ _ Heval).
Qed.

(** C4, at inputs where the code departs from it: when a row that is left
    out comes before a row that is kept, line 135 raises [IndexError]
    instead of returning the rows in ascending order of speed.  It uses
    the row labels of the sorted series as positions in the selected
    series.  The row is left out for a missing exposure time in the first
    frame and in the directory [three_files], for a value outside the top
    ten in the second frame.  When no row is left out the rows come back
    in ascending order. *)
Theorem sorted_shutter_speeds_index_error :
  sorted_shutter_speeds
    (one_column "Shutter Speed" [None; Some "1/500"; Some "1/60"])
  = raise IndexError
  ∧ sel_top_vals (one_column "Shutter Speed" [None; Some "1/500"; Some "1/60"])
                 "Shutter Speed"
    = ok [(1, Some (PStr "1/500")); (2, Some (PStr "1/60"))]
  ∧ sorted_shutter_speeds (one_column "Shutter Speed" eleven_speeds)
    = raise IndexError
  ∧ (main positional_parser (photos three_files) ["photos"] boot).1
    = raise IndexError
  ∧ sorted_shutter_speeds
      (one_column "Shutter Speed" [Some "1/500"; Some "1/60"; Some "1/250"])
    = ok [(0, Some (PStr "1/500")); (2, Some (PStr "1/250"));
          (1, Some (PStr "1/60"))].
Proof. split_and!; vm_compute; reflexivity. Qed.

(** ** The command line *)

(** C9: when the parser reports arguments it does not recognise, next to
    the directory, [parse_arguments] prints the warning with these
    arguments, then the help text, and returns the parsed arguments;
    [main] goes on with them as it does without unknown arguments. *)
Theorem parse_arguments_unknown parse_known_args disk argv args unknown_args w :
  parse_known_args argv = ok (args, unknown_args) →
  unknown_args ≠ [] →
  let w' := emit EvPrintHelp (emit (EvPrint "Unknown argument(s):" unknown_args) w) in
  parse_arguments parse_known_args argv w = (ok args, w')
  ∧ main parse_known_args disk argv w = main_with disk args w'.
Proof.
  intros Hparse Hunknown w'.
  assert (parse_arguments parse_known_args argv w = (ok args, w')) as Hrun.
  { unfold parse_arguments, io_bind, io_lift. rewrite Hparse.
    cbn -[bool_decide]. by rewrite bool_decide_eq_true_2. }
  split; [done|]. unfold main, io_bind. by rewrite Hrun.
Qed.

(** ** Instances

    Each property that carries a hypothesis, at an input that meets it. *)

Lemma filter_dict_spec_witness :
  sample_store !! 0 = Some sample_dict
  ∧ let '(b, σ') := Store.filter_dict 0 even_value sample_store in
    sample_store !! b = None
    ∧ σ' !! 0 = Some sample_dict
    ∧ (∀ c, c ≠ b → σ' !! c = sample_store !! c)
    ∧ σ' !! b = Some (filter_dict sample_dict even_value)
    ∧ (∀ k v, filter_dict sample_dict even_value !! k = Some v
              ↔ sample_dict !! k = Some v ∧ even_value (k, v) = true)
    ∧ (sample_dict = ∅ → filter_dict sample_dict even_value = ∅).
Proof.
  split; [vm_compute; reflexivity|].
  apply (filter_dict_spec sample_store 0 sample_dict even_value).
  vm_compute; reflexivity.
Defined.

Lemma collect_tags_normalizes_witness :
  ∃ raw, h_data (Handle 0 (image [("EXIF FNumber", "28/10")])) = Image raw
    ∧ (∀ k v, raw !! k = Some v → k ∈ exif_subset → k ≠ "EXIF FNumber" →
              ({[ "EXIF FNumber" := PFloat (Prim2SF 2.8%float) ]}
                 : gmap string pyval) !! k = Some (PStr (str v)))
    ∧ (∀ v, raw !! "EXIF FNumber" = Some v →
            ∃ x, eval (str v) = ok x
                 ∧ ({[ "EXIF FNumber" := PFloat (Prim2SF 2.8%float) ]}
                      : gmap string pyval) !! "EXIF FNumber" = Some x)
    ∧ (∀ k, is_Some (({[ "EXIF FNumber" := PFloat (Prim2SF 2.8%float) ]}
                        : gmap string pyval) !! k) →
            k ∈ exif_subset ∧ is_Some (raw !! k))
    ∧ eval "28/10" = ok (PFloat (Prim2SF 2.8%float))
    ∧ eval "40/10" = ok (PFloat (Prim2SF 4.0%float)).
Proof.
  apply (collect_tags_normalizes
           (Handle 0 (image [("EXIF FNumber", "28/10")])) exif_subset boot
           {[ "EXIF FNumber" := PFloat (Prim2SF 2.8%float) ]}
           (emit (EvProcess 0) boot)).
  vm_compute; reflexivity.
Defined.

Lemma sel_top_vals_ten_witness :
  ∃ res top,
    sel_top_vals (one_column "Shutter Speed" eleven_speeds) "Shutter Speed"
    = ok res
    ∧ length (distinct_values res) = 10
    ∧ length top = 10
    ∧ NoDup top
    ∧ (∀ v w, v ∈ top → w ∉ top →
              occurrences w (imap (λ i c, (i, PStr <$> c)) eleven_speeds)
              ≤ occurrences v (imap (λ i c, (i, PStr <$> c)) eleven_speeds))
    ∧ (∀ i c, (i, c) ∈ res → ∃ v, c = Some v ∧ v ∈ top).
Proof.
  apply (sel_top_vals_ten (one_column "Shutter Speed" eleven_speeds)
           "Shutter Speed" (imap (λ i c, (i, PStr <$> c)) eleven_speeds)).
  - vm_compute; reflexivity.
  - vm_compute. lia.
Defined.

Lemma sel_top_vals_few_witness :
  sel_top_vals (one_column "ISO" [Some "200"; None]) "ISO"
  = ok (notna [(0, Some (PStr "200")); (1, None)])
  ∧ ((∀ e, e ∈ [(0, Some (PStr "200")); (1, None)] → is_Some e.2) →
     sel_top_vals (one_column "ISO" [Some "200"; None]) "ISO"
     = ok [(0, Some (PStr "200")); (1, None)]).
Proof.
  apply (sel_top_vals_few (one_column "ISO" [Some "200"; None]) "ISO"
           [(0, Some (PStr "200")); (1, None)]).
  - vm_compute; reflexivity.
  - vm_compute. lia.
Defined.

Lemma sel_top_vals_skips_missing_witness :
  ∃ values,
    getitem (one_column "ISO" [Some "200"; None]) "ISO" = ok values
    ∧ (∀ i, (i, None) ∉ [(0, Some (PStr "200"))])
    ∧ [(0, Some (PStr "200"))]
      = filter (kept (top_values (notna values))) (notna values)
    ∧ (∀ i v, (i, Some v) ∈ [(0, Some (PStr "200"))]
              ↔ (i, Some v) ∈ values ∧ v ∈ top_values (notna values))
    ∧ (∀ v, v ∈ top_values (notna values)
            ↔ ∃ i, (i, Some v) ∈ [(0, Some (PStr "200"))])
    ∧ value_counts values = value_counts (notna values)
    ∧ top_values values = top_values (notna values)
    ∧ (∀ v n, (v, n) ∈ value_counts values → n = occurrences v values).
Proof.
  apply (sel_top_vals_skips_missing (one_column "ISO" [Some "200"; None])
           "ISO" [(0, Some (PStr "200"))]).
  vm_compute; reflexivity.
Defined.

Lemma parse_arguments_unknown_witness :
  let w' := emit EvPrintHelp
              (emit (EvPrint "Unknown argument(s):" ["--verbose"]) boot) in
  parse_arguments positional_parser ["photos"; "--verbose"] boot
  = (ok (Build_Namespace "photos"), w')
  ∧ main positional_parser (photos four_files) ["photos"; "--verbose"] boot
    = main_with (photos four_files) (Build_Namespace "photos") w'.
Proof.
  apply (parse_arguments_unknown positional_parser (photos four_files)
           ["photos"; "--verbose"] (Build_Namespace "photos") ["--verbose"] boot).
  - vm_compute; reflexivity.
  - discriminate.
Defined.

(** * Further properties *)

(** ** The tag filter, continued *)

Section FilterDictMore.
Context {K : Type} `{Countable K} {V : Type}.
Implicit Types (m : gmap K V) (p q : K * V → bool).

(** Filtering twice is filtering once by both predicates. *)
Theorem filter_dict_compose m p q :
  filter_dict (filter_dict m p) q = filter_dict m (λ item, p item && q item).
Proof.
  apply map_eq. intros k. rewrite !filter_dict_lookup.
  destruct (m !! k) as [v|]; simpl; [|done].
  destruct (p (k, v)); simpl; [|done]. by destruct (q (k, v)).
Qed.

(** The result is a part of the input: it has no entry the input lacks
    and no more entries than the input; it is the whole input exactly
    when every entry satisfies the predicate. *)
Theorem filter_dict_subseteq m p :
  filter_dict m p ⊆ m
  ∧ size (filter_dict m p) ≤ size m
  ∧ (filter_dict m p = m ↔ ∀ k v, m !! k = Some v → p (k, v) = true).
Proof.
  assert (filter_dict m p ⊆ m) as Hsub.
  { apply map_subseteq_spec. intros k v Hk.
    by apply filter_dict_Some in Hk as [Hk _]. }
  split_and!; [done|by apply map_subseteq_size|]. split.
  - intros Heq k v Hk. rewrite <-Heq in Hk.
    by apply filter_dict_Some in Hk as [_ Hp].
  - intros Hall. apply map_eq. intros k. rewrite filter_dict_lookup.
    destruct (m !! k) as [v|] eqn:Hk; simpl; [|done].
    by rewrite (Hall k v Hk).
Qed.
End FilterDictMore.

(** ** The tag collector, continued *)

Lemma dict_comprehension_total {V W} (f : string → V → result W)
    (l : list (string * V)) (acc : gmap string W) :
  (∀ kv, kv ∈ l → ∃ x, f kv.1 kv.2 = ok x) →
  ∃ tags,
    rfold (λ acc kv, rbind (f kv.1 kv.2) (λ x, ok (<[kv.1:=x]> acc))) acc l
    = ok tags.
Proof.
  revert acc. induction l as [|kv l IH]; intros acc Hall; simpl.
  - by exists acc.
  - destruct (Hall kv) as [x Hx]; [by left|]. rewrite Hx. simpl.
    apply IH. intros kv' Hin. apply Hall. by right.
Qed.

Lemma dict_comprehension_raise {V W} (f : string → V → result W)
    (l : list (string * V)) (acc : gmap string W) e :
  rfold (λ acc kv, rbind (f kv.1 kv.2) (λ x, ok (<[kv.1:=x]> acc))) acc l
  = raise e →
  ∃ kv, kv ∈ l ∧ f kv.1 kv.2 = raise e.
Proof.
  revert acc. induction l as [|kv l IH]; intros acc Hrun; simpl in Hrun.
  - done.
  - destruct (f kv.1 kv.2) as [e'|x] eqn:Hx; simpl in Hrun.
    + exists kv. split; [by left|]. rewrite Hx. by injection Hrun as ->.
    + destruct (IH _ Hrun) as (kv' & Hin & Hkv'). exists kv'.
      split; [by right|done].
Qed.

(** What becomes of an image: the collector fails exactly when the image
    has an F-number whose text does not evaluate, and then with the
    exception of [eval]; the other tags cannot make it fail.  Either way it
    reads the file once and does nothing else to the world. *)
Theorem collect_tags_outcome fd raw tags_subset w :
  (collect_tags (Handle fd (Image raw)) tags_subset w).2 = emit (EvProcess fd) w
  ∧ match raw !! "EXIF FNumber" with
    | Some v =>
        match eval (str v) with
        | inl e =>
            (collect_tags (Handle fd (Image raw)) tags_subset w).1 = raise e
        | inr _ =>
            ∃ tags,
              (collect_tags (Handle fd (Image raw)) tags_subset w).1 = ok tags
        end
    | None =>
        ∃ tags, (collect_tags (Handle fd (Image raw)) tags_subset w).1 = ok tags
    end.
Proof.
  rewrite collect_tags_run. split; [done|]. unfold record_of. simpl.
  set (selected := filter_dict raw _).
  assert (∀ k v, (k, v) ∈ map_to_list selected →
                 raw !! k = Some v ∧ k ∈ exif_subset) as Hsel.
  { intros k v Hin. apply elem_of_map_to_list in Hin. unfold selected in Hin.
    rewrite selected_lookup in Hin.
    by destruct (decide (k ∈ exif_subset)). }
  assert (∀ k v, k ≠ "EXIF FNumber" → ∃ x, tag_value k v = ok x) as Hother.
  { intros k v Hk. unfold tag_value. rewrite bool_decide_eq_false_2 by done.
    by eexists. }
  destruct (dict_comprehension tag_value selected) as [e|tags] eqn:Hrun.
  - apply dict_comprehension_raise in Hrun as ([k v] & Hin & Hkv).
    simpl in Hkv. destruct (Hsel k v Hin) as [Hraw _].
    destruct (decide (k = "EXIF FNumber")) as [->|Hk].
    + rewrite Hraw. unfold tag_value in Hkv.
      rewrite bool_decide_eq_true_2 in Hkv by done. by rewrite Hkv.
    + destruct (Hother k v Hk) as [x Hx]. by rewrite Hx in Hkv.
  - pose proof (dict_comprehension_lookup _ _ _ Hrun "EXIF FNumber") as Hk.
    unfold selected in Hk. rewrite selected_lookup in Hk.
    rewrite decide_True in Hk by (unfold exif_subset; set_solver).
    destruct (raw !! "EXIF FNumber") as [v|]; [|by exists tags].
    destruct Hk as (x & Hx & _). unfold tag_value in Hx.
    rewrite bool_decide_eq_true_2 in Hx by done. rewrite Hx. by exists tags.
Qed.

(** Whatever list of names it is given, the collector returns at most four
    entries, all under names of the fixed list. *)
Theorem collect_tags_at_most_four f tags_subset w tags w' :
  collect_tags f tags_subset w = (ok tags, w') →
  dom tags ⊆ list_to_set exif_subset ∧ size tags ≤ 4.
Proof.
  destruct f as [fd data]. rewrite collect_tags_run.
  destruct data as [| |raw]; try done. unfold record_of; simpl.
  intros [= Hrun _].
  assert (dom tags ⊆ (list_to_set exif_subset : gset string)) as Hdom.
  { intros k [x Hx]%elem_of_dom.
    pose proof (dict_comprehension_lookup _ _ _ Hrun k) as Hk.
    rewrite selected_lookup in Hk. apply elem_of_list_to_set.
    destruct (decide (k ∈ exif_subset)); [done|congruence]. }
  split; [done|].
  rewrite <-size_dom. etrans; [by apply subseteq_size|]. by vm_compute.
Qed.

Lemma collect_tags_at_most_four_witness :
  dom ({[ "EXIF FNumber" := PFloat (Prim2SF 2.8%float) ]} : gmap string pyval)
    ⊆ list_to_set exif_subset
  ∧ size ({[ "EXIF FNumber" := PFloat (Prim2SF 2.8%float) ]}
            : gmap string pyval) ≤ 4.
Proof.
  apply (collect_tags_at_most_four
           (Handle 0 (image [("EXIF FNumber", "28/10"); ("EXIF Make", "NIKON")]))
           [] boot _ (emit (EvProcess 0) boot)).
  vm_compute; reflexivity.
Defined.

(** ** The directory harvester, continued *)

Lemma io_fold_app {A B} (body : B → A → io B) acc l1 l2 w :
  io_fold body acc (l1 ++ l2) w
  = io_bind (io_fold body acc l1) (λ acc', io_fold body acc' l2) w.
Proof.
  revert acc w. induction l1 as [|x l1 IH]; intros acc w; [reflexivity|].
  simpl. unfold io_bind.
  destruct (body acc x w) as [[e|acc'] w1]; [reflexivity|].
  rewrite IH. reflexivity.
Qed.

Lemma io_fold_ext {A B} (body body' : B → A → io B) acc l w :
  (∀ acc x w, body acc x w = body' acc x w) →
  io_fold body acc l w = io_fold body' acc l w.
Proof.
  intros Hext. revert acc w. induction l as [|x l IH]; intros acc w; simpl.
  - done.
  - unfold io_bind. rewrite Hext.
    destruct (body' acc x w) as [[e|acc'] w1]; [done|]. apply IH.
Qed.

Lemma io_fold_filter {A B C} (P : C → Prop) `{∀ z, Decision (P z)}
    (g : A → C) (step : B → C → io B) acc l w :
  io_fold (λ acc x, if decide (P (g x)) then step acc (g x) else io_ret acc)
          acc l w
  = io_fold step acc (filter P (g <$> l)) w.
Proof.
  revert acc w. induction l as [|x l IH]; intros acc w; [done|].
  csimpl. rewrite filter_cons. destruct (decide (P (g x))); simpl.
  - unfold io_bind. destruct (step acc (g x) w) as [[e|acc'] w1]; [done|].
    apply IH.
  - apply IH.
Qed.

Lemma io_fold_flat_map {A B C} (g : A → list C) (P : C → Prop)
    `{∀ z, Decision (P z)} (step : B → C → io B) acc l w :
  io_fold (λ acc e, io_fold step acc (filter P (g e))) acc l w
  = io_fold step acc (filter P (flat_map g l)) w.
Proof.
  revert acc w. induction l as [|e l IH]; intros acc w; simpl; [done|].
  rewrite filter_app, io_fold_app. unfold io_bind.
  destruct (io_fold step acc (filter P (g e)) w) as [[e'|acc'] w1]; [done|].
  apply IH.
Qed.

(** The two nested loops of the harvester are one loop over the matching
    files of the walk. *)
Lemma harvest_run disk dir w :
  harvest_exifs_from_dir disk dir w
  = io_fold harvest_step [] (matching_files disk dir) w.
Proof.
  unfold harvest_exifs_from_dir, matching_files, walk_files.
  rewrite <-io_fold_flat_map. apply io_fold_ext.
  intros acc [[subdir dirs] files] w1.
  rewrite <-io_fold_filter. apply io_fold_ext.
  intros tags [filename data] w2. simpl. unfold raw_ext. simpl.
  destruct (decide (lower (splitext (subdir +:+ os_sep +:+ filename)).2
                    ∈ [".nef"; ".raw"])) as [Hext|Hext].
  - by rewrite bool_decide_eq_false_2 by (by intros ?).
  - by rewrite bool_decide_eq_true_2.
Qed.

(** One turn on a file: an unreadable file is not opened; any other file
    is opened and read once. *)
Lemma harvest_step_run tags file w :
  harvest_step tags file w
  = match file.2 with
    | Unreadable => (raise (FileAccessError file.1), w)
    | _ =>
        (rbind (record_of file) (λ record, ok (tags ++ [record])),
         World (S (next_fd w))
               (log w ++ [EvOpen file.1 (next_fd w); EvProcess (next_fd w)]))
    end.
Proof.
  destruct file as [path data]. unfold harvest_step, io_bind, py_open.
  destruct data as [| |raw]; cbn -[collect_tags record_of]; [done| |];
    rewrite collect_tags_run; cbn -[record_of]; unfold emit; simpl;
    rewrite <-app_assoc; simpl.
  - done.
  - change (record_of ("", Image raw)) with (record_of (path, Image raw)).
    by destruct (record_of _).
Qed.

(** When no file of the walk passes the extension test (an empty or
    missing directory among the cases), the harvest returns no record and
    leaves the world as it was: nothing is opened. *)
Theorem harvest_no_match disk dir w :
  matching_files disk dir = [] →
  harvest_exifs_from_dir disk dir w = (ok [], w).
Proof. intros Hnone. by rewrite harvest_run, Hnone. Qed.

Lemma harvest_loop_log l acc w :
  log (io_fold harvest_step acc l w).2 = log w ++ harvest_log (next_fd w) l.
Proof.
  revert acc w. induction l as [|[path data] l IH]; intros acc w; simpl.
  - by rewrite app_nil_r.
  - unfold io_bind. rewrite harvest_step_run. simpl.
    destruct data as [| |raw]; simpl.
    + by rewrite app_nil_r.
    + done.
    + destruct (record_of (path, Image raw)) as [e|record]; simpl.
      * done.
      * rewrite IH. simpl. by rewrite <-app_assoc.
Qed.

(** What a harvest does to the world: to the log it adds, for each
    matching file in turn and up to the first that fails, an open and a
    read of the file, each open with the next free descriptor, and nothing
    else. *)
Theorem harvest_effects disk dir w :
  log (harvest_exifs_from_dir disk dir w).2
  = log w ++ harvest_log (next_fd w) (matching_files disk dir).
Proof. rewrite harvest_run. apply harvest_loop_log. Qed.

Lemma harvest_log_opens fd l path fd' :
  EvOpen path fd' ∈ harvest_log fd l →
  ∃ data, (path, data) ∈ l ∧ data ≠ Unreadable.
Proof.
  revert fd. induction l as [|[p data] l IH]; intros fd; simpl.
  - by intros ?%elem_of_nil.
  - assert (EvOpen path fd' ∈ EvOpen p fd :: EvProcess fd
              :: match record_of (p, data) with
                 | inl _ => []
                 | inr _ => harvest_log (S fd) l
                 end →
            data ≠ Unreadable →
            ∃ data', (path, data') ∈ (p, data) :: l ∧ data' ≠ Unreadable)
      as Hcase.
    { intros Hin Hdata. apply elem_of_cons in Hin as [[= -> ->]|Hin].
      { exists data. split; [by left|done]. }
      apply elem_of_cons in Hin as [?|Hin]; [done|].
      destruct (record_of (p, data)); [by apply elem_of_nil in Hin|].
      apply IH in Hin as (data' & Hin & Hd). exists data'.
      split; [by right|done]. }
    destruct data as [| |raw]; simpl.
    + by intros ?%elem_of_nil.
    + intros Hin. by apply Hcase.
    + intros Hin. by apply Hcase.
Qed.

(** The harvester opens no file but those that pass its extension test:
    an open in the log after a harvest was there before, or is of a
    matching file of the walk (one that can be opened). *)
Theorem harvest_opens_only_matching disk dir w path fd :
  EvOpen path fd ∈ log (harvest_exifs_from_dir disk dir w).2 →
  EvOpen path fd ∈ log w
  ∨ (raw_ext path
     ∧ ∃ data, (path, data) ∈ walk_files disk dir ∧ data ≠ Unreadable).
Proof.
  rewrite harvest_effects. intros [?|Hin]%elem_of_app; [by left|]. right.
  apply harvest_log_opens in Hin as (data & Hin & Hd).
  apply list_elem_of_filter in Hin as [Hext Hin]. eauto.
Qed.

Lemma harvest_loop_failure l1 file l2 acc w e :
  Forall (λ f, ∃ record, record_of f = ok record) l1 →
  record_of file = raise e →
  (io_fold harvest_step acc (l1 ++ file :: l2) w).1 = raise e
  ∧ length (opened (harvest_log (next_fd w) (l1 ++ file :: l2)))
    = length l1 + match file.2 with Unreadable => 0 | _ => 1 end.
Proof.
  intros Hok Hfail. revert acc w.
  induction Hok as [|[p data] l1 [record Hrec] _ IH]; intros acc w; simpl.
  - unfold io_bind. rewrite harvest_step_run. rewrite Hfail.
    destruct file as [p data]. simpl.
    destruct data as [| |raw]; simpl; [|done..].
    unfold record_of in Hfail. simpl in Hfail. by injection Hfail as <-.
  - unfold io_bind. rewrite harvest_step_run. rewrite Hrec. simpl.
    destruct data as [| |raw]; simpl; try done.
    destruct (IH (acc ++ [record])
                 (World (S (next_fd w))
                    (log w ++ [EvOpen p (next_fd w); EvProcess (next_fd w)])))
      as [Hres Hlen].
    split; [done|]. simpl in Hlen. by rewrite Hlen.
Qed.

(** The first matching file that fails ends the harvest: the harvest
    raises the exception of that file, returning none of the records
    collected so far, and no file after it is opened. *)
Theorem harvest_stops_at_failure disk dir w l1 file l2 e :
  matching_files disk dir = l1 ++ file :: l2 →
  Forall (λ f, ∃ record, record_of f = ok record) l1 →
  record_of file = raise e →
  (harvest_exifs_from_dir disk dir w).1 = raise e
  ∧ ∃ evs,
      log (harvest_exifs_from_dir disk dir w).2 = log w ++ evs
      ∧ length (opened evs)
        = length l1 + match file.2 with Unreadable => 0 | _ => 1 end.
Proof.
  intros Hfiles Hok Hfail.
  destruct (harvest_loop_failure l1 file l2 [] w e Hok Hfail) as [Hres Hlen].
  split; [by rewrite harvest_run, Hfiles|].
  exists (harvest_log (next_fd w) (matching_files disk dir)).
  split; [apply harvest_effects|]. by rewrite Hfiles.
Qed.

Lemma harvest_no_match_witness :
  harvest_exifs_from_dir (photos four_files) "albums" boot = (ok [], boot).
Proof.
  apply (harvest_no_match (photos four_files) "albums" boot).
  vm_compute; reflexivity.
Defined.

Lemma harvest_opens_only_matching_witness :
  EvOpen "photos/b.raw" 1 ∈ log boot
  ∨ (raw_ext "photos/b.raw"
     ∧ ∃ data, ("photos/b.raw", data) ∈ walk_files (photos four_files) "photos"
               ∧ data ≠ Unreadable).
Proof.
  apply (harvest_opens_only_matching (photos four_files) "photos" boot
           "photos/b.raw" 1).
  apply list_elem_of_In. vm_compute. right. right. left. reflexivity.
Defined.

Lemma harvest_stops_at_failure_witness :
  (harvest_exifs_from_dir (photos broken_files) "photos" boot).1
  = raise DecodeError
  ∧ ∃ evs,
      log (harvest_exifs_from_dir (photos broken_files) "photos" boot).2
      = log boot ++ evs
      ∧ length (opened evs) = 1 + 1.
Proof.
  apply (harvest_stops_at_failure (photos broken_files) "photos" boot
           [("photos/a.nef", image [("EXIF ExposureTime", "1/125")])]
           ("photos/b.nef", Corrupt)
           [("photos/c.nef", image [("EXIF ExposureTime", "1/250")])]
           DecodeError).
  - vm_compute; reflexivity.
  - constructor; [|constructor]. eexists. vm_compute; reflexivity.
  - reflexivity.
Defined.

(** ** The top-value selector, continued *)

Section TopValuesMore.
Context {V : Type} `{EqDecision V}.

Lemma getitem_columns (data : DataFrame V) x :
  (x ∈ columns data → ∃ values, getitem data x = ok values)
  ∧ (x ∉ columns data → getitem data x = raise (KeyError x)).
Proof.
  unfold getitem. destruct (list_find _ _) as [[j c]|] eqn:Hfind.
  - apply list_find_Some in Hfind as (Hj & -> & _). split.
    + intros _. by eexists.
    + intros Hout. destruct Hout. by eapply list_elem_of_lookup_2.
  - apply list_find_None in Hfind. rewrite Forall_forall in Hfind. split.
    + intros Hin. by destruct (Hfind x Hin).
    + done.
Qed.

(** Asked for a column the frame does not have, the selector raises
    [KeyError] for the name asked for: the lookup [data[x]] of line 76
    fails before anything is counted, whatever the rows hold. *)
Theorem sel_top_vals_KeyError (data : DataFrame V) x :
  x ∉ columns data → sel_top_vals data x = raise (KeyError x).
Proof.
  intros Hx. destruct (getitem_columns data x) as [_ Hout].
  unfold sel_top_vals. by rewrite (Hout Hx).
Qed.

Lemma sel_top_vals_inv (data : DataFrame V) x res :
  sel_top_vals data x = ok res →
  ∃ values, getitem data x = ok values
            ∧ res = filter (kept (top_values values)) values.
Proof.
  intros Hsel. destruct (getitem data x) as [e|values] eqn:Hcol.
  { unfold sel_top_vals in Hsel. by rewrite Hcol in Hsel. }
  exists values. split; [done|].
  rewrite (sel_top_vals_filter _ _ _ Hcol) in Hsel. by injection Hsel.
Qed.

(** The rows returned are rows of the column, in their order, and a value
    that is kept is kept in every row that holds it: it occurs in the
    result as often as in the column. *)
Theorem sel_top_vals_frequencies (data : DataFrame V) x res :
  sel_top_vals data x = ok res →
  ∃ values,
    getitem data x = ok values
    ∧ res `sublist_of` values
    ∧ ∀ i v, (i, Some v) ∈ res → occurrences v res = occurrences v values.
Proof.
  intros (values & Hcol & ->)%sel_top_vals_inv. exists values.
  split_and!; [done|apply sublist_filter|].
  intros i v [Hk _]%list_elem_of_filter. unfold occurrences.
  rewrite list_filter_filter. f_equal. apply list_filter_iff.
  intros [j c]. simpl. split; [by intros [? _]|].
  intros ->. split; [done|]. exact Hk.
Qed.

(** The result never holds more than ten distinct values: it holds ten,
    or all those of the column when these are fewer. *)
Theorem sel_top_vals_distinct (data : DataFrame V) x res :
  sel_top_vals data x = ok res →
  ∃ values,
    getitem data x = ok values
    ∧ length (distinct_values res) = 10 `min` length (distinct_values values).
Proof.
  intros (values & Hcol & ->)%sel_top_vals_inv. exists values.
  split; [done|].
  transitivity (length (top_values values)).
  - unfold distinct_values. apply Permutation_length, NoDup_Permutation.
    + apply NoDup_remove_dups.
    + apply top_values_NoDup.
    + intros v. rewrite elem_of_remove_dups, elem_of_dropna. split.
      * intros [i [Hk _]%list_elem_of_filter]. exact Hk.
      * intros Hv. pose proof (top_values_present _ _ Hv) as Hin.
        apply elem_of_dropna in Hin as [i Hi]. exists i.
        apply list_elem_of_filter. by split.
  - by rewrite top_values_take, length_take, length_fmap, ranked_length.
Qed.
End TopValuesMore.

Lemma sel_top_vals_KeyError_witness :
  sel_top_vals (one_column "Shutter Speed" [Some "1/200"; None]) "ISO"
  = raise (KeyError "ISO").
Proof.
  apply (sel_top_vals_KeyError
           (one_column "Shutter Speed" [Some "1/200"; None]) "ISO").
  intros Hin%list_elem_of_In. simpl in Hin. destruct Hin as [Hin|[]].
  discriminate Hin.
Defined.

Lemma sel_top_vals_frequencies_witness :
  ∃ values,
    getitem (one_column "Shutter Speed" eleven_speeds) "Shutter Speed"
    = ok values
    ∧ drop 1 (imap (λ i c, (i, PStr <$> c)) eleven_speeds) `sublist_of` values
    ∧ ∀ i v,
        (i, Some v) ∈ drop 1 (imap (λ i c, (i, PStr <$> c)) eleven_speeds) →
        occurrences v (drop 1 (imap (λ i c, (i, PStr <$> c)) eleven_speeds))
        = occurrences v values.
Proof.
  apply (sel_top_vals_frequencies
           (one_column "Shutter Speed" eleven_speeds) "Shutter Speed").
  vm_compute; reflexivity.
Defined.

Lemma sel_top_vals_distinct_witness :
  ∃ values,
    getitem (one_column "Shutter Speed" eleven_speeds) "Shutter Speed"
    = ok values
    ∧ length (distinct_values
                (drop 1 (imap (λ i c, (i, PStr <$> c)) eleven_speeds)))
      = 10 `min` length (distinct_values values).
Proof.
  apply (sel_top_vals_distinct
           (one_column "Shutter Speed" eleven_speeds) "Shutter Speed").
  vm_compute; reflexivity.
Defined.

(** ** The report, continued *)

Lemma iloc_in_range {A} (s : list A) positions :
  (∀ i, i ∈ positions → i < length s) →
  iloc s positions = ok (omap (λ i, s !! i) positions).
Proof.
  unfold iloc. induction positions as [|i ps IH]; intros Hall; [done|].
  rewrite rmap_cons. destruct (lookup_lt_is_Some_2 s i) as [e He].
  { apply Hall. by left. }
  simpl. rewrite He. simpl. rewrite IH; [done|].
  intros j Hj. apply Hall. by right.
Qed.

Lemma omap_lookup_seq {A} (pre s : list A) :
  omap (λ i, (pre ++ s) !! i) (seq (length pre) (length s)) = s.
Proof.
  revert pre. induction s as [|x s IH]; intros pre; [done|].
  simpl. rewrite list_lookup_middle by done. f_equal.
  specialize (IH (pre ++ [x])). rewrite length_app in IH. simpl in IH.
  rewrite Nat.add_1_r, <-app_assoc in IH. exact IH.
Qed.

(** With every position once, [iloc] rearranges the series. *)
Lemma iloc_permutation {A} (s : list A) positions :
  positions ≡ₚ seq 0 (length s) →
  ∃ res, iloc s positions = ok res
         ∧ res = omap (λ i, s !! i) positions
         ∧ res ≡ₚ s.
Proof.
  intros Hp. exists (omap (λ i, s !! i) positions). split_and!.
  - apply iloc_in_range. intros i Hi. rewrite Hp in Hi.
    apply elem_of_seq in Hi. lia.
  - done.
  - rewrite Hp. exact (eq_ind_r (λ l, l ≡ₚ s) (reflexivity s) (omap_lookup_seq [] s)).
Qed.

(** When the rows selected are labelled 0, 1, ... in turn, that is when no
    row left out comes before a row kept, and every cell evaluates,
    line 135 returns the selected rows, each once, in the order in which
    the sort puts their values. *)
Theorem sorted_shutter_speeds_rearranges exifs_df top speeds :
  sel_top_vals exifs_df "Shutter Speed" = ok top →
  series_apply eval_cell top = ok speeds →
  top.*1 = seq 0 (length top) →
  ∃ res,
    sorted_shutter_speeds exifs_df = ok res
    ∧ res ≡ₚ top
    ∧ res.*1 = index_of (sort_values speeds).
Proof.
  intros Hsel Heval Hlabels. unfold sorted_shutter_speeds.
  rewrite Hsel. simpl. rewrite Heval. simpl.
  assert (index_of (sort_values speeds) ≡ₚ seq 0 (length top)) as Hp.
  { unfold index_of, sort_values. rewrite merge_sort_Permutation.
    by rewrite (series_apply_labels _ _ _ Heval), Hlabels. }
  destruct (iloc_permutation top _ Hp) as (res & Hres & Hdef & Hperm).
  exists res. split_and!; [done|done|].
  rewrite Hdef. clear Hres Hdef Hperm.
  assert (∀ i, i ∈ index_of (sort_values speeds) →
               ∃ c, top !! i = Some (i, c)) as Hat.
  { intros i Hi. rewrite Hp in Hi. apply elem_of_seq in Hi.
    destruct (lookup_lt_is_Some_2 top i) as [[l c] Htop]; [lia|].
    exists c. rewrite Htop. do 2 f_equal.
    assert (top.*1 !! i = Some l) as Hl by (by rewrite list_lookup_fmap, Htop).
    rewrite Hlabels in Hl. apply lookup_seq in Hl. lia. }
  clear Hp. revert Hat. generalize (index_of (sort_values speeds)).
  intros ps. induction ps as [|i ps IH]; intros Hat; [done|].
  simpl. destruct (Hat i) as [c Hc]; [by left|]. rewrite Hc. simpl.
  f_equal. apply IH. intros j Hj. apply Hat. by right.
Qed.

Lemma sorted_shutter_speeds_label_past_end_witness :
  sorted_shutter_speeds
    (one_column "Shutter Speed" [None; Some "1/500"; Some "1/60"])
  = raise IndexError.
Proof.
  apply (sorted_shutter_speeds_label_past_end
           (one_column "Shutter Speed" [None; Some "1/500"; Some "1/60"])
           [(1, Some (PStr "1/500")); (2, Some (PStr "1/60"))]
           [(1, float_div (float_of_Z 1) (float_of_Z 500));
            (2, float_div (float_of_Z 1) (float_of_Z 60))]
           2).
  - vm_compute; reflexivity.
  - vm_compute; reflexivity.
  - apply list_elem_of_In. vm_compute. right. left. reflexivity.
  - simpl. lia.
Defined.

Lemma sorted_shutter_speeds_rearranges_witness :
  ∃ res,
    sorted_shutter_speeds
      (one_column "Shutter Speed" [Some "1/500"; Some "1/60"; Some "1/250"])
    = ok res
    ∧ res ≡ₚ [(0, Some (PStr "1/500")); (1, Some (PStr "1/60"));
              (2, Some (PStr "1/250"))]
    ∧ res.*1
      = index_of (sort_values
                    [(0, float_div (float_of_Z 1) (float_of_Z 500));
                     (1, float_div (float_of_Z 1) (float_of_Z 60));
                     (2, float_div (float_of_Z 1) (float_of_Z 250))]).
Proof.
  apply (sorted_shutter_speeds_rearranges
           (one_column "Shutter Speed" [Some "1/500"; Some "1/60"; Some "1/250"])).
  - vm_compute; reflexivity.
  - vm_compute; reflexivity.
  - reflexivity.
Defined.

(** ** The frame and [main] *)

Lemma columns_of_records records c :
  c ∈ columns (DataFrame_of_records records)
  ↔ ∃ r, r ∈ records ∧ is_Some (r !! c).
Proof.
  unfold DataFrame_of_records. simpl.
  rewrite elem_of_remove_dups, list_elem_of_In, in_flat_map.
  split.
  - intros (r & Hr & Hc). exists r. split; [by apply list_elem_of_In|].
    apply list_elem_of_In, list_elem_of_fmap in Hc as ([k v] & -> & Hkv).
    apply elem_of_map_to_list in Hkv. by exists v.
  - intros (r & Hr & [v Hv]). exists r. split; [by apply list_elem_of_In|].
    apply list_elem_of_In, list_elem_of_fmap. exists (c, v).
    split; [done|]. by apply elem_of_map_to_list.
Qed.

Lemma record_of_keys file record :
  record_of file = ok record →
  ∃ raw, file.2 = Image raw
         ∧ ∀ k, is_Some (record !! k) → k ∈ exif_subset ∧ is_Some (raw !! k).
Proof.
  unfold record_of. destruct file as [path [| |raw]]; simpl; try done.
  intros Hrun. exists raw. split; [done|]. intros k [x Hx].
  pose proof (dict_comprehension_lookup _ _ _ Hrun k) as Hk.
  rewrite selected_lookup in Hk.
  destruct (decide (k ∈ exif_subset)) as [Hin|]; [|congruence].
  destruct (raw !! k) as [v|]; [eauto|congruence].
Qed.

(** The name a column of the frame has after the renaming, for a key of
    the fixed list. *)
Lemma renamed_tag c name :
  c ∈ exif_subset →
  default c (column_names !! c) = name →
  (c, name) ∈ [("EXIF ExposureTime", "Shutter Speed");
               ("EXIF ISOSpeedRatings", "ISO");
               ("EXIF FocalLength", "Focal length");
               ("EXIF FNumber", "F number")].
Proof.
  unfold exif_subset. rewrite !elem_of_cons, elem_of_nil.
  intros [->|[->|[->|[->|[]]]]] <-; vm_compute; set_solver.
Qed.

Lemma getitem_ok_column {V} (data : DataFrame V) x values :
  getitem data x = ok values → x ∈ columns data.
Proof.
  unfold getitem. destruct (list_find _ _) as [[j c]|] eqn:Hfind; [|done].
  intros _. apply list_find_Some in Hfind as (Hj & -> & _).
  by eapply list_elem_of_lookup_2.
Qed.

Lemma sel_top_vals_ok_column {V} `{EqDecision V} (data : DataFrame V) x res :
  sel_top_vals data x = ok res → x ∈ columns data.
Proof.
  unfold sel_top_vals. destruct (getitem data x) as [e|values] eqn:Hcol;
    [done|]. intros _. by eapply getitem_ok_column.
Qed.

(** When the parser exits, for a missing directory or for [-h], [main]
    does nothing more: it raises the exit and leaves the world as it was,
    no file opened. *)
Theorem main_parser_exit parse_known_args disk argv e w :
  parse_known_args argv = raise e →
  main parse_known_args disk argv w = (raise e, w).
Proof.
  intros Hparse. unfold main, parse_arguments, io_bind, io_lift.
  by rewrite Hparse.
Qed.

(** Without a matching file there is no plot: the frame built from no
    record has no column, and [main] raises [KeyError] for the first
    column it asks for, having opened nothing. *)
Theorem main_no_raw_files disk args w :
  matching_files disk (dir args) = [] →
  main_with disk args w = (raise (KeyError "Shutter Speed"), w).
Proof.
  intros Hnone. unfold main_with, io_bind.
  by rewrite harvest_run, Hnone.
Qed.

(** [main] gets to the end only if each of the four tags occurs in at
    least one of the files harvested: a tag that occurs in none leaves the
    frame without its column, and asking for the column raises
    [KeyError]. *)
Theorem main_needs_every_tag disk args w fig w' tag :
  main_with disk args w = (ok fig, w') →
  tag ∈ exif_subset →
  ∃ path raw,
    (path, Image raw) ∈ matching_files disk (dir args)
    ∧ is_Some (raw !! tag).
Proof.
  intros Hmain Htag. unfold main_with, io_bind in Hmain.
  pose proof (harvest_result disk (dir args) w) as Hres.
  destruct (harvest_exifs_from_dir disk (dir args) w) as [[e|records] w1];
    [done|].
  simpl in Hres. symmetry in Hres. apply rmap_ok in Hres.
  fold (matching_files disk (dir args)) in Hres.
  set (df := rename (DataFrame_of_records records) column_names) in Hmain.
  assert (∀ name, name ∈ ["Shutter Speed"; "ISO"; "Focal length"; "F number"] →
                  name ∈ columns df) as Hcols.
  { unfold io_lift in Hmain.
    destruct (sorted_shutter_speeds df) as [e|s1] eqn:H1; [done|].
    destruct (sel_top_vals df "ISO") as [e|s2] eqn:H2; [done|].
    destruct (sel_top_vals df "Focal length") as [e|s3] eqn:H3; [done|].
    destruct (sel_top_vals df "F number") as [e|s4] eqn:H4; [done|].
    unfold sorted_shutter_speeds in H1.
    destruct (sel_top_vals df "Shutter Speed") as [e|s0] eqn:H0; [done|].
    intros name. rewrite !elem_of_cons, elem_of_nil.
    intros [->|[->|[->|[->|[]]]]]; by eapply sel_top_vals_ok_column. }
  assert (∃ name, name ∈ ["Shutter Speed"; "ISO"; "Focal length"; "F number"]
                  ∧ ∀ c, c ∈ exif_subset →
                         default c (column_names !! c) = name → c = tag)
    as (name & Hname & Honly).
  { revert Htag. unfold exif_subset. rewrite !elem_of_cons, elem_of_nil.
    intros [->|[->|[->|[->|[]]]]].
    - exists "Shutter Speed". split; [set_solver|].
      intros c Hc Hn. pose proof (renamed_tag c _ Hc Hn). set_solver.
    - exists "ISO". split; [set_solver|].
      intros c Hc Hn. pose proof (renamed_tag c _ Hc Hn). set_solver.
    - exists "Focal length". split; [set_solver|].
      intros c Hc Hn. pose proof (renamed_tag c _ Hc Hn). set_solver.
    - exists "F number". split; [set_solver|].
      intros c Hc Hn. pose proof (renamed_tag c _ Hc Hn). set_solver. }
  apply Hcols in Hname. unfold df, rename in Hname. simpl in Hname.
  apply list_elem_of_fmap in Hname as (c & Hn & Hc).
  apply columns_of_records in Hc as (r & Hr & Hsome).
  apply list_elem_of_lookup in Hr as [i Hr].
  destruct (Forall2_lookup_r _ _ _ _ _ Hres Hr) as ([path data] & Hfile & Hrec).
  apply record_of_keys in Hrec as (raw & Hdata & Hkeys). simpl in Hdata.
  subst data. destruct (Hkeys c Hsome) as [Hin Hraw].
  rewrite (Honly c Hin (eq_sym Hn)) in Hraw.
  exists path, raw. split; [by eapply list_elem_of_lookup_2|done].
Qed.

Lemma main_parser_exit_witness :
  main positional_parser (photos four_files) ["--verbose"] boot
  = (raise (SystemExit 2), boot).
Proof.
  apply (main_parser_exit positional_parser (photos four_files)
           ["--verbose"] (SystemExit 2) boot).
  reflexivity.
Defined.

Lemma main_no_raw_files_witness :
  main_with (photos four_files) (Build_Namespace "albums") boot
  = (raise (KeyError "Shutter Speed"), boot).
Proof.
  apply (main_no_raw_files (photos four_files) (Build_Namespace "albums") boot).
  vm_compute; reflexivity.
Defined.

Lemma main_needs_every_tag_witness :
  ∃ path raw,
    (path, Image raw)
      ∈ matching_files (photos complete_files) (dir (Build_Namespace "photos"))
    ∧ is_Some (raw !! "EXIF FocalLength").
Proof.
  apply (main_needs_every_tag (photos complete_files)
           (Build_Namespace "photos") boot
           ([(1, Some (PStr "1/250")); (0, Some (PStr "1/125"))],
            [(0, Some (PStr "200")); (1, Some (PStr "200"))],
            [(0, Some (PStr "50")); (1, Some (PStr "35"))],
            [(0, Some (PFloat (Prim2SF 2.8%float)));
             (1, Some (PFloat (Prim2SF 4.0%float)))])
           (World 2 [EvOpen "photos/a.nef" 0; EvProcess 0;
                     EvOpen "photos/b.nef" 1; EvProcess 1])).
  - vm_compute; reflexivity.
  - apply list_elem_of_In. simpl. tauto.
Defined.

(** *** The columns of the frame *)










(** Files all with an integral F-number give a column of ints, held as
    collected; one file without an F-number, or with a fractional one,
    makes it a column of floats. *)
Example frame_column_f_numbers :
  getitem (rename (DataFrame_of_records
                     [ {[ "EXIF FNumber" := PInt 4 ]};
                       {[ "EXIF FNumber" := PInt 8 ]} ])
                  column_names) "F number"
  = ok [(0, Some (PInt 4)); (1, Some (PInt 8))]
  ∧ getitem (rename (DataFrame_of_records
                       [ {[ "EXIF FNumber" := PInt 4 ]};
                         {[ "EXIF FNumber" := PFloat (Prim2SF 2.8%float) ]};
                         ∅ ])
                    column_names) "F number"
    = ok [(0, Some (PFloat (Prim2SF 4.0%float)));
          (1, Some (PFloat (Prim2SF 2.8%float)));
          (2, None)].
Proof. split; vm_compute; reflexivity. Qed.

(** *** Ascending order *)

Lemma float_leb_total (x y : pyfloat) :
  x ≠ S754_nan → y ≠ S754_nan →
  float_leb x y = true ∨ float_leb y x = true.
Proof.
  intros Hx Hy. unfold float_leb, SFleb.
  destruct x as [sx|sx| |sx mx ex], y as [sy|sy| |sy my ey];
    try done; simpl; try (destruct sx); try (destruct sy); auto.
  - pose proof (Z.compare_antisym ex ey) as Hz.
    pose proof (Pos.compare_cont_antisym mx my Eq) as Hp. simpl in Hp.
    rewrite Hz, <-Hp.
    destruct (ex ?= ey)%Z, (Pos.compare_cont Eq mx my); simpl; auto.
  - pose proof (Z.compare_antisym ex ey) as Hz.
    pose proof (Pos.compare_cont_antisym mx my Eq) as Hp. simpl in Hp.
    rewrite Hz, <-Hp.
    destruct (ex ?= ey)%Z, (Pos.compare_cont Eq mx my); simpl; auto.
Qed.

(** The sort puts a list in order as soon as the relation compares any
    two of its entries, whatever it does elsewhere. *)
Section SortOn.
Context {A : Type} (R : relation A) `{∀ x y, Decision (R x y)}.
Context (Q : A → Prop) (Htotal : ∀ x y, Q x → Q y → R x y ∨ R y x).

Lemma list_merge_on l1 l2 :
  Forall Q l1 → Forall Q l2 → Forall Q (list_merge R l1 l2).
Proof.
  intros H1 H2. rewrite merge_Permutation. by apply Forall_app.
Qed.

Lemma Sorted_list_merge_on l1 l2 :
  Forall Q l1 → Forall Q l2 → Sorted R l1 → Sorted R l2 →
  Sorted R (list_merge R l1 l2).
Proof.
  intros HQ1 HQ2 Hs1. revert HQ1 l2 HQ2.
  induction Hs1 as [|x1 l1 Hs1 IH1 Hd1]; intros HQ1 l2 HQ2 Hs2.
  { by rewrite list_merge_nil_l. }
  apply Forall_cons in HQ1 as [Hx1 HQ1].
  induction Hs2 as [|x2 l2 Hs2 IH2 Hd2].
  { rewrite list_merge_nil_r. by constructor. }
  apply Forall_cons in HQ2 as [Hx2 HQ2].
  rewrite list_merge_cons. destruct (decide (R x1 x2)) as [Hr|Hr].
  - constructor.
    + apply IH1; [done|by constructor|by constructor].
    + apply HdRel_list_merge; [done|by constructor].
  - assert (R x2 x1) as Hr' by (by destruct (Htotal x1 x2 Hx1 Hx2)).
    constructor.
    + by apply IH2.
    + apply HdRel_list_merge; [by constructor|done].
Qed.

Lemma runs_sorted_push st l :
  runs_sorted R Q st → Sorted R l → Forall Q l →
  runs_sorted R Q (merge_list_to_stack R st l).
Proof.
  intros Hst. revert l. induction Hst as [|[l'|] st Hl' Hst IH]; intros l Hs HQ.
  - by repeat constructor.
  - destruct Hl' as [Hs' HQ']. simpl. constructor; [done|].
    apply IH; [by apply Sorted_list_merge_on|by apply list_merge_on].
  - simpl. by constructor.
Qed.

Lemma runs_sorted_merge st :
  runs_sorted R Q st →
  Sorted R (merge_stack R st) ∧ Forall Q (merge_stack R st).
Proof.
  induction 1 as [|[l|] st Hl Hst [IHs IHQ]]; simpl.
  - by split; constructor.
  - destruct Hl as [Hs HQ].
    split; [by apply Sorted_list_merge_on|by apply list_merge_on].
  - done.
Qed.

Lemma Sorted_merge_sort_aux_on st l :
  runs_sorted R Q st → Forall Q l → Sorted R (merge_sort_aux R st l).
Proof.
  revert st. induction l as [|x l IH]; intros st Hst HQ; simpl.
  - by apply runs_sorted_merge.
  - apply Forall_cons in HQ as [Hx HQ]. apply IH; [|done].
    apply runs_sorted_push; [done|by repeat constructor|by repeat constructor].
Qed.

Lemma Sorted_merge_sort_on l : Forall Q l → Sorted R (merge_sort R l).
Proof. intros HQ. apply Sorted_merge_sort_aux_on; [constructor|done]. Qed.
End SortOn.

(** When the rows selected are labelled 0, 1, ... in turn, every cell
    evaluates and no speed is a NaN, line 135 returns the selected rows,
    each once, in ascending order of the speed they evaluate to. *)
Theorem sorted_shutter_speeds_ascending exifs_df top speeds :
  sel_top_vals exifs_df "Shutter Speed" = ok top →
  series_apply eval_cell top = ok speeds →
  top.*1 = seq 0 (length top) →
  Forall (λ e, e.2 ≠ S754_nan) speeds →
  ∃ res,
    sorted_shutter_speeds exifs_df = ok res
    ∧ res ≡ₚ top
    ∧ series_apply eval_cell res = ok (sort_values speeds)
    ∧ Sorted by_value (sort_values speeds).
Proof.
  intros Hsel Heval Hlabels Hnan. unfold sorted_shutter_speeds.
  rewrite Hsel. simpl. rewrite Heval. simpl.
  assert (index_of (sort_values speeds) ≡ₚ seq 0 (length top)) as Hp.
  { unfold index_of, sort_values. rewrite merge_sort_Permutation.
    by rewrite (series_apply_labels _ _ _ Heval), Hlabels. }
  destruct (iloc_permutation top _ Hp) as (res & Hres & Hdef & Hperm).
  exists res. split_and!; [done|done| |].
  - rewrite Hdef. clear Hres Hdef Hperm Hp.
    unfold series_apply in *. apply rmap_ok in Heval. apply rmap_ok.
    assert (∀ o, o ∈ sort_values speeds →
                 ∃ e, top !! o.1 = Some e
                      ∧ rbind (eval_cell e.2) (λ y, ok (e.1, y)) = ok o)
      as Hat.
    { intros o Ho. unfold sort_values in Ho.
      rewrite merge_sort_Permutation in Ho.
      apply list_elem_of_lookup in Ho as [k Ho].
      destruct (Forall2_lookup_r _ _ _ _ _ Heval Ho) as (e & He & HP).
      exists e. split; [|done].
      assert (o.1 = e.1) as Hlabel.
      { destruct (eval_cell e.2); simpl in HP; [done|]. by injection HP as <-. }
      assert (top.*1 !! k = Some e.1) as Hk by (by rewrite list_lookup_fmap, He).
      rewrite Hlabels in Hk. apply lookup_seq in Hk as [Hk _].
      simpl in Hk. by rewrite Hlabel, Hk. }
    revert Hat. unfold index_of. generalize (sort_values speeds).
    intros srt. induction srt as [|o srt IH]; intros Hat; [constructor|].
    csimpl. destruct (Hat o) as (e & He & HP); [by left|].
    rewrite He. simpl. constructor; [done|].
    apply IH. intros o' Ho'. apply Hat. by right.
  - apply (Sorted_merge_sort_on by_value (λ e, e.2 ≠ S754_nan)); [|done].
    intros a b Ha Hb. by apply float_leb_total.
Qed.

Lemma sorted_shutter_speeds_ascending_witness :
  ∃ res,
    sorted_shutter_speeds
      (one_column "Shutter Speed" [Some "1/500"; Some "1/60"; Some "1/250"])
    = ok res
    ∧ res ≡ₚ [(0, Some (PStr "1/500")); (1, Some (PStr "1/60"));
              (2, Some (PStr "1/250"))]
    ∧ series_apply eval_cell res
      = ok (sort_values
              [(0, float_div (float_of_Z 1) (float_of_Z 500));
               (1, float_div (float_of_Z 1) (float_of_Z 60));
               (2, float_div (float_of_Z 1) (float_of_Z 250))])
    ∧ Sorted by_value
        (sort_values
           [(0, float_div (float_of_Z 1) (float_of_Z 500));
            (1, float_div (float_of_Z 1) (float_of_Z 60));
            (2, float_div (float_of_Z 1) (float_of_Z 250))]).
Proof.
  apply (sorted_shutter_speeds_ascending
           (one_column "Shutter Speed" [Some "1/500"; Some "1/60"; Some "1/250"])).
  - vm_compute; reflexivity.
  - vm_compute; reflexivity.
  - reflexivity.
  - repeat constructor; vm_compute; discriminate.
Defined.
